(** * A shallow embedding of the file explorer's service layer

    The development follows the two service modules of the repository:

    - [services/file_system.py]: [FileSystemService] with its metadata
      cache, its watch registrations and its file operations;
    - [services/ai_service.py]: [AIService] with its conversation context,
      the streamed command protocol, and [AsyncRateLimiter].

    Python objects become records, [self] becomes an explicit state that
    every operation threads through, raised exceptions become the [Raise]
    branch of an outcome (the state reached when the exception leaves the
    method is kept), and Qt signals become a trace of emitted events.  The
    operating system, the clock and the remote endpoint are inputs. *)

From Stdlib Require Import ZArith NArith QArith Qminmax Lqa Lia List String Ascii.
From Stdlib.Strings Require Import Byte.
From stdpp Require Import gmap strings list.

Local Open Scope Z_scope.
Local Open Scope string_scope.
Local Open Scope list_scope.

(** ** Exceptions and outcomes *)

(** The exception classes that the two modules raise, catch or let through.
    [APIConnectionError] and [APIStatusError] stand for the subclasses of
    anthropic's [APIError] other than the two that are caught by name. *)
Inductive exn_class :=
  | FileNotFoundError | NotADirectoryError | IsADirectoryError
  | FileExistsError | OSError
  | UnicodeDecodeError | UnicodeEncodeError
  | RuntimeError | AttributeError | TypeError | ValueError
  | ConnectionError
  | APITimeoutError | RateLimitError | APIConnectionError | APIStatusError.

#[global] Instance exn_class_eq_dec : EqDecision exn_class.
Proof. solve_decision. Defined.

(** An exception value: its class and [str(e)]. *)
Record exn := Exn { exn_cls : exn_class; exn_msg : string }.

#[global] Instance exn_eq_dec : EqDecision exn.
Proof. solve_decision. Defined.

Inductive outcome (A : Type) :=
  | Ok (a : A)
  | Raise (e : exn).
Arguments Ok {A} a.
Arguments Raise {A} e.

(** ** The UTF-8 codec of the Python runtime

    [read_file] falls back on [bytes.decode('utf-8', errors='ignore')] and
    [write_file] encodes a [str]; both are CPython's codec, whose decoder
    reports an error range that the error handler then skips.  A [str] is a
    list of code points. *)
Module Utf8.

Local Open Scope N_scope.

Definition text := list N.

(** The [errors=] argument of [bytes.decode]. *)
Inductive errors := Strict | Ignore | Replace.

Inductive step :=
  | Char (cp : N) (used : nat)   (* a well-formed sequence of [used] bytes *)
  | Invalid (skip : nat)         (* invalid start or continuation byte *)
  | Truncated.                   (* unexpected end of data *)

Definition is_continuation (b : N) : bool := (0x80 <=? b) && (b <? 0xC0).

Definition cont_bits (b : N) : N := N.land b 0x3F.

(** One round of the decoder's main loop on the bytes that are left. *)
Definition next (bs : list N) : step :=
  match bs with
  | [] => Truncated
  | ch :: t =>
    if ch <? 0x80 then Char ch 1
    else if ch <? 0xE0 then
      if ch <? 0xC2 then Invalid 1
      else match t with
           | [] => Truncated
           | ch2 :: _ =>
             if is_continuation ch2
             then Char (N.lor (N.shiftl (N.land ch 0x1F) 6) (cont_bits ch2)) 2
             else Invalid 1
           end
    else if ch <? 0xF0 then
      match t with
      | [] => Truncated
      | ch2 :: t2 =>
        if negb (is_continuation ch2)
           || (if ch2 <? 0xA0 then ch =? 0xE0 else ch =? 0xED)
        then Invalid 1
        else match t2 with
             | [] => Truncated
             | ch3 :: _ =>
               if is_continuation ch3
               then Char (N.lor (N.shiftl (N.land ch 0x0F) 12)
                            (N.lor (N.shiftl (cont_bits ch2) 6) (cont_bits ch3))) 3
               else Invalid 2
             end
      end
    else if ch <? 0xF5 then
      match t with
      | [] => Truncated
      | ch2 :: t2 =>
        if negb (is_continuation ch2)
           || (if ch2 <? 0x90 then ch =? 0xF0 else ch =? 0xF4)
        then Invalid 1
        else match t2 with
             | [] => Truncated
             | ch3 :: t3 =>
               if negb (is_continuation ch3) then Invalid 2
               else match t3 with
                    | [] => Truncated
                    | ch4 :: _ =>
                      if is_continuation ch4
                      then Char (N.lor (N.shiftl (N.land ch 0x07) 18)
                                   (N.lor (N.shiftl (cont_bits ch2) 12)
                                      (N.lor (N.shiftl (cont_bits ch3) 6)
                                         (cont_bits ch4)))) 4
                      else Invalid 3
                    end
             end
      end
    else Invalid 1
  end.

(** What the error handler contributes to the output; [None] raises. *)
Definition on_error (e : errors) : option text :=
  match e with
  | Strict => None
  | Ignore => Some []
  | Replace => Some [0xFFFD]
  end.

(** The decoder's loop.  Every round consumes at least one byte, so the
    number of bytes is enough fuel. *)
Fixpoint decode_loop (fuel : nat) (e : errors) (bs : list N) : option text :=
  match fuel with
  | O => Some []
  | S fuel' =>
    match bs with
    | [] => Some []
    | _ :: _ =>
      match next bs with
      | Char cp used => cons cp <$> decode_loop fuel' e (drop used bs)
      | Invalid skip =>
        r ← on_error e;
        app r <$> decode_loop fuel' e (drop skip bs)
      | Truncated => on_error e
      end
    end
  end.

(** [bs.decode('utf-8', errors=e)]; [None] is [UnicodeDecodeError]. *)
Definition decode (e : errors) (bs : list byte) : option text :=
  decode_loop (length bs) e (Byte.to_N <$> bs).

Definition byte_of (n : N) : byte := default x00%byte (Byte.of_N n).

(** The bytes of one code point; [None] for a surrogate, which the
    encoder rejects, and for a number that is no code point. *)
Definition encode_char (cp : N) : option (list byte) :=
  if cp <? 0x80 then Some [byte_of cp]
  else if cp <? 0x800 then
    Some [byte_of (N.lor 0xC0 (N.shiftr cp 6));
          byte_of (N.lor 0x80 (cont_bits cp))]
  else if (0xD800 <=? cp) && (cp <? 0xE000) then None
  else if cp <? 0x10000 then
    Some [byte_of (N.lor 0xE0 (N.shiftr cp 12));
          byte_of (N.lor 0x80 (cont_bits (N.shiftr cp 6)));
          byte_of (N.lor 0x80 (cont_bits cp))]
  else if cp <? 0x110000 then
    Some [byte_of (N.lor 0xF0 (N.shiftr cp 18));
          byte_of (N.lor 0x80 (cont_bits (N.shiftr cp 12)));
          byte_of (N.lor 0x80 (cont_bits (N.shiftr cp 6)));
          byte_of (N.lor 0x80 (cont_bits cp))]
  else None.

(** [s.encode('utf-8')]; [None] is [UnicodeEncodeError]. *)
Fixpoint encode (s : text) : option (list byte) :=
  match s with
  | [] => Some []
  | cp :: s' =>
    b ← encode_char cp;
    app b <$> encode s'
  end.

(** Universal newlines, as a file opened in text mode applies them on
    reading: ["\r\n"] and a lone ["\r"] both become ["\n"]. *)
Fixpoint universal_newlines (s : text) : text :=
  match s with
  | [] => []
  | c :: s' =>
    if c =? 13 then
      match s' with
      | d :: s'' => if d =? 10 then 10 :: universal_newlines s''
                    else 10 :: universal_newlines s'
      | [] => [10]
      end
    else c :: universal_newlines s'
  end.

End Utf8.

(** ** services/file_system.py *)
Module FileSystem.

(** *** Paths and the operating system *)

(** A [pathlib.Path]: the components of an absolute, normalised path;
    [[]] is the root. *)
Definition Path := list string.

Fixpoint path_str_aux (p : Path) : string :=
  match p with
  | [] => ""
  | c :: p' => "/" ++ c ++ path_str_aux p'
  end.

(** [str(path)] *)
Definition path_str (p : Path) : string :=
  match p with
  | [] => "/"
  | _ :: _ => path_str_aux p
  end.

(** [path.name] *)
Definition name (p : Path) : string := List.last p "".

(** [path.parent] *)
Definition parent (p : Path) : Path := List.removelast p.

(** [s.startswith('.')] *)
Definition startswith_dot (s : string) : bool :=
  match s with
  | String c _ => Ascii.eqb c "."%char
  | EmptyString => false
  end.

(** What the disk holds at a path; the root directory is the entry at
    [[]].  Timestamps are integers (a fixed unit since the epoch); a
    directory's size is whatever the operating system reports for it.
    Access rights and symbolic links are left out: every entry can be
    read and written. *)
Inductive node :=
  | File (data : list byte) (mtime : Z)
  | Dir (dsize : Z) (mtime : Z).

Definition is_dir_node (n : node) : bool :=
  match n with Dir _ _ => true | File _ _ => false end.

(** [os.stat_result], the two fields that are read. *)
Record stat_result := { st_size : Z; st_mtime : Z }.

Definition stat_node (n : node) : stat_result :=
  match n with
  | File data mtime => {| st_size := Z.of_nat (length data); st_mtime := mtime |}
  | Dir dsize mtime => {| st_size := dsize; st_mtime := mtime |}
  end.

(** The size reported for a directory that was just made. *)
Definition fresh_dir_size : Z := 4096.

(** The part of the world the service does not own: the disk, the clock
    that stamps modifications, and whether the operating system refuses
    to install a watch on a path (and with which error). *)
Record os_state := {
  disk : gmap Path node;
  clock : Z;
  watch_refusal : Path -> option exn
}.

(** *** The service's own state *)

Record FileMetadata := {
  path : Path;
  size : Z;
  modified_time : Z;
  mime_type : string;
  is_hidden : bool
}.

#[global] Instance FileMetadata_eq_dec : EqDecision FileMetadata.
Proof. solve_decision. Defined.

(** The signals of [FileSystemEventEmitter]. *)
Inductive signal :=
  | file_created (p : Path)
  | file_modified (p : Path)
  | file_deleted (p : Path)
  | error_occurred (msg : string).

(** [observer_watches] lists the watches scheduled on [self.observer],
    oldest first; [emitted] is the trace of signals, oldest first. *)
Record FileSystemService := {
  chunk_size : Z;
  observer_watches : list Path;
  monitored_paths : gset Path;
  metadata_cache : gmap Path FileMetadata;
  _is_initialized : bool;
  emitted : list signal
}.

(** [FileSystemService(chunk_size)] *)
Definition new (chunk_size : Z) : FileSystemService := {|
  chunk_size := chunk_size;
  observer_watches := [];
  monitored_paths := ∅;
  metadata_cache := ∅;
  _is_initialized := false;
  emitted := []
|}.

Definition default_chunk_size : Z := 1024 * 1024.

Record world := { os : os_state; self : FileSystemService }.

Definition set_disk (d : gmap Path node) (w : world) : world :=
  {| os := {| disk := d; clock := clock (os w);
              watch_refusal := watch_refusal (os w) |};
     self := self w |}.

Definition set_self (s : FileSystemService) (w : world) : world :=
  {| os := os w; self := s |}.

Definition set_cache (c : gmap Path FileMetadata) (s : FileSystemService)
  : FileSystemService :=
  {| chunk_size := chunk_size s;
     observer_watches := observer_watches s;
     monitored_paths := monitored_paths s;
     metadata_cache := c;
     _is_initialized := _is_initialized s;
     emitted := emitted s |}.

Definition emit (sg : signal) (s : FileSystemService) : FileSystemService :=
  {| chunk_size := chunk_size s;
     observer_watches := observer_watches s;
     monitored_paths := monitored_paths s;
     metadata_cache := metadata_cache s;
     _is_initialized := _is_initialized s;
     emitted := emitted s ++ [sg] |}.

Definition add_watch (p : Path) (s : FileSystemService) : FileSystemService :=
  {| chunk_size := chunk_size s;
     observer_watches := observer_watches s ++ [p];
     monitored_paths := monitored_paths s;
     metadata_cache := metadata_cache s;
     _is_initialized := _is_initialized s;
     emitted := emitted s |}.

Definition set_monitored (m : gset Path) (s : FileSystemService)
  : FileSystemService :=
  {| chunk_size := chunk_size s;
     observer_watches := observer_watches s;
     monitored_paths := m;
     metadata_cache := metadata_cache s;
     _is_initialized := _is_initialized s;
     emitted := emitted s |}.

(** *** Methods as state transformers that may raise *)

Definition M (A : Type) : Type := world -> outcome A * world.

Definition ret {A} (a : A) : M A := fun w => (Ok a, w).

Definition raise {A} (e : exn) : M A := fun w => (Raise e, w).

Definition bind {A B} (m : M A) (k : A -> M B) : M B :=
  fun w =>
    match m w with
    | (Ok a, w') => k a w'
    | (Raise e, w') => (Raise e, w')
    end.

Definition gets {A} (f : world -> A) : M A := fun w => (Ok (f w), w).

Definition modify (f : world -> world) : M unit := fun w => (Ok tt, f w).

(** [try: body except ...: handler]; the handler answers [None] for an
    exception that no clause matches. *)
Definition try_except {A} (body : M A) (handler : exn -> option (M A)) : M A :=
  fun w =>
    match body w with
    | (Ok a, w') => (Ok a, w')
    | (Raise e, w') =>
      match handler e with
      | Some h => h w'
      | None => (Raise e, w')
      end
    end.

Declare Scope fs_scope.
Delimit Scope fs_scope with fs.
Notation "x <- m ;; k" := (bind m (fun x => k))
  (at level 100, m at next level, right associativity) : fs_scope.
Notation "m ;; k" := (bind m (fun _ => k))
  (at level 100, right associativity) : fs_scope.
Local Open Scope fs_scope.

Definition when (b : bool) (m : M unit) : M unit := if b then m else ret tt.

(** *** Operating system calls *)

(** [path.exists()] *)
Definition exists_ (p : Path) : M bool :=
  gets (fun w => bool_decide (is_Some (disk (os w) !! p))).

(** [path.is_dir()] *)
Definition is_dir (p : Path) : M bool :=
  gets (fun w => match disk (os w) !! p with
                 | Some n => is_dir_node n
                 | None => false
                 end).

Definition errno_msg (what : string) (p : Path) : string :=
  what ++ ": '" ++ path_str p ++ "'".

Definition ENOENT (p : Path) : exn :=
  Exn FileNotFoundError (errno_msg "[Errno 2] No such file or directory" p).
Definition ENOTDIR (p : Path) : exn :=
  Exn NotADirectoryError (errno_msg "[Errno 20] Not a directory" p).
Definition EISDIR (p : Path) : exn :=
  Exn IsADirectoryError (errno_msg "[Errno 21] Is a directory" p).
Definition EEXIST (p : Path) : exn :=
  Exn FileExistsError (errno_msg "[Errno 17] File exists" p).

(** [path.stat()] *)
Definition stat (p : Path) : M stat_result :=
  fun w =>
    match disk (os w) !! p with
    | Some n => (Ok (stat_node n), w)
    | None => (Raise (ENOENT p), w)
    end.

(** Opening [p] for reading and reading it whole. *)
Definition read_bytes (p : Path) : M (list byte) :=
  fun w =>
    match disk (os w) !! p with
    | Some (File data _) => (Ok data, w)
    | Some (Dir _ _) => (Raise (EISDIR p), w)
    | None => (Raise (ENOENT p), w)
    end.

(** The operating system stamps a directory with the time at which an
    entry is made or removed in it. *)
Definition touch_dir (p : Path) (now : Z) (d : gmap Path node) : gmap Path node :=
  match d !! p with
  | Some (Dir dsize _) => <[p := Dir dsize now]> d
  | Some (File _ _) | None => d
  end.

(** Opening [p] with mode ['w']: the file is emptied, or made, and then
    the directory it is made in is stamped. *)
Definition open_w (p : Path) : M unit :=
  fun w =>
    match disk (os w) !! p with
    | Some (Dir _ _) => (Raise (EISDIR p), w)
    | found =>
      match disk (os w) !! parent p with
      | Some (Dir _ _) =>
        let d :=
          match found with
          | None => touch_dir (parent p) (clock (os w)) (disk (os w))
          | Some _ => disk (os w)
          end in
        (Ok tt, set_disk (<[p := File [] (clock (os w))]> d) w)
      | Some (File _ _) => (Raise (ENOTDIR p), w)
      | None => (Raise (ENOENT p), w)
      end
    end.

(** Flushing [data] to the file opened at [p]. *)
Definition flush_w (p : Path) (data : list byte) : M unit :=
  modify (fun w => set_disk (<[p := File data (clock (os w))]> (disk (os w))) w).

(** [path.mkdir(parents=True, exist_ok=True)], component by component
    from the root: [done] is the prefix known to be a directory, which is
    stamped when a directory is made in it.  A file on the way is an
    error of the first [os.mkdir], which names the whole path. *)
Fixpoint mkdir_from (done todo : Path) : M unit :=
  match todo with
  | [] => ret tt
  | c :: todo' =>
    let q := done ++ [c] in
    fun w =>
      match disk (os w) !! q with
      | Some (Dir _ _) => mkdir_from q todo' w
      | Some (File _ _) =>
        (Raise (match todo' with
                | [] => EEXIST q
                | _ :: _ => ENOTDIR (q ++ todo')
                end), w)
      | None =>
        mkdir_from q todo'
          (set_disk
             (touch_dir done (clock (os w))
                (<[q := Dir fresh_dir_size (clock (os w))]> (disk (os w)))) w)
      end
  end.

Definition mkdir_parents (p : Path) : M unit := mkdir_from [] p.

(** [path.unlink()]; the directory the file was in is stamped. *)
Definition unlink (p : Path) : M unit :=
  fun w =>
    match disk (os w) !! p with
    | Some (File _ _) =>
      (Ok tt,
       set_disk (touch_dir (parent p) (clock (os w)) (delete p (disk (os w)))) w)
    | Some (Dir _ _) => (Raise (EISDIR p), w)
    | None => (Raise (ENOENT p), w)
    end.

(** *** The methods of [FileSystemService] *)

Section Service.

(** [magic.from_file(str(path), mime=True)]: the content sniffer is an
    outside library; all that is assumed is that its answer depends on
    what the disk holds at the path.  It opens the path before it sniffs
    it, which raises for a directory. *)
Variable magic_from_file : node -> string.

Definition sniff (p : Path) : M string :=
  fun w =>
    match disk (os w) !! p with
    | Some (File data mtime) => (Ok (magic_from_file (File data mtime)), w)
    | Some (Dir _ _) => (Raise (EISDIR p), w)
    | None => (Raise (ENOENT p), w)
    end.

Definition cache_put (p : Path) (md : FileMetadata) : M unit :=
  modify (fun w =>
    set_self (set_cache (<[p := md]> (metadata_cache (self w))) (self w)) w).

(** [self.metadata_cache.pop(path, None)] *)
Definition cache_pop (p : Path) : M unit :=
  modify (fun w =>
    set_self (set_cache (delete p (metadata_cache (self w))) (self w)) w).

Definition emit_error (e : exn) : M unit :=
  modify (fun w => set_self (emit (error_occurred (exn_msg e)) (self w)) w).

Definition get_metadata (p : Path) : M FileMetadata :=
  cache <- gets (fun w => metadata_cache (self w));;
  match cache !! p with
  | Some md => ret md
  | None =>
    found <- exists_ p;;
    if negb found
    then raise (Exn FileNotFoundError ("File not found: " ++ path_str p))
    else
      stats <- stat p;;
      mime <- sniff p;;
      let metadata := {|
        path := p;
        size := st_size stats;
        modified_time := st_mtime stats;
        mime_type := mime;
        is_hidden := startswith_dot (name p)
      |} in
      cache_put p metadata;;
      ret metadata
  end.

Definition decode_error : exn :=
  Exn UnicodeDecodeError "'utf-8' codec can't decode bytes".

(** [open(path, 'r')] then [read()]: text mode, taken to decode UTF-8
    (the locale's encoding) strictly, with universal newlines. *)
Definition read_text (p : Path) : M Utf8.text :=
  data <- read_bytes p;;
  match Utf8.decode Utf8.Strict data with
  | Some s => ret (Utf8.universal_newlines s)
  | None => raise decode_error
  end.

(** [open(path, 'rb')] then [read().decode('utf-8', errors='ignore')] *)
Definition read_lossy (p : Path) : M Utf8.text :=
  data <- read_bytes p;;
  match Utf8.decode Utf8.Ignore data with
  | Some s => ret s
  | None => raise decode_error
  end.

Definition read_file (p : Path) : M Utf8.text :=
  found <- exists_ p;;
  if negb found
  then raise (Exn FileNotFoundError ("File not found: " ++ path_str p))
  else
    try_except (read_text p)
      (fun e => match exn_cls e with
                | UnicodeDecodeError => Some (read_lossy p)
                | _ => None
                end).

(** The asynchronous generator that a call of [read_binary] makes: not
    yet started, suspended at its [yield] with the bytes still to be
    read, or finished.  The file is taken not to change while it is
    being read. *)
Inductive chunk_reader :=
  | Created (p : Path)
  | Reading (rest : list byte)
  | Closed.

(** Calling the generator function only makes the generator. *)
Definition read_binary (p : Path) : M chunk_reader := ret (Created p).

(** [f.read(n)] and what is left: everything for [-1]; a size below
    that is refused. *)
Definition read_n (n : Z) (rest : list byte) : outcome (list byte * list byte) :=
  if (n <? -1)%Z
  then Raise (Exn ValueError "read length must be non-negative or -1")
  else if (n <? 0)%Z then Ok (rest, [])
  else Ok (take (Z.to_nat n) rest, drop (Z.to_nat n) rest).

(** A round of [while chunk := await f.read(self.chunk_size): yield chunk] *)
Definition next_chunk (rest : list byte) (w : world)
  : outcome (option (list byte)) * chunk_reader * world :=
  match read_n (chunk_size (self w)) rest with
  | Raise e => (Raise e, Closed, w)
  | Ok ([], _) => (Ok None, Closed, w)
  | Ok (chunk, rest') => (Ok (Some chunk), Reading rest', w)
  end.

(** [await gen.__anext__()]: [Ok (Some chunk)] is a yielded chunk and
    [Ok None] is [StopAsyncIteration]. *)
Definition anext (g : chunk_reader) (w : world)
  : outcome (option (list byte)) * chunk_reader * world :=
  match g with
  | Created p =>
    match disk (os w) !! p with
    | None =>
      (Raise (Exn FileNotFoundError ("File not found: " ++ path_str p)),
       Closed, w)
    | Some (Dir _ _) => (Raise (EISDIR p), Closed, w)
    | Some (File data _) => next_chunk data w
    end
  | Reading rest => next_chunk rest w
  | Closed => (Ok None, Closed, w)
  end.

Definition encode_error : exn :=
  Exn UnicodeEncodeError "'utf-8' codec can't encode character".

Definition write_file (p : Path) (content : Utf8.text) (create_dirs : bool)
  : M unit :=
  when create_dirs (mkdir_parents (parent p));;
  open_w p;;
  match Utf8.encode content with
  | Some data => flush_w p data
  | None => raise encode_error
  end;;
  cache_pop p.

Definition delete_file (p : Path) : M unit :=
  found <- exists_ p;;
  if negb found
  then raise (Exn FileNotFoundError ("File not found: " ++ path_str p))
  else
    try_except (unlink p;; cache_pop p)
      (fun e => Some (emit_error e;; raise e)).

(** [self.observer.schedule(self.event_handler, str(path), recursive=True)] *)
Definition schedule (p : Path) : M unit :=
  fun w =>
    match watch_refusal (os w) p with
    | Some e => (Raise e, w)
    | None => (Ok tt, set_self (add_watch p (self w)) w)
    end.

Definition start_monitoring (p : Path) : M unit :=
  found <- exists_ p;;
  if negb found
  then raise (Exn FileNotFoundError ("Path does not exist: " ++ path_str p))
  else
    d <- is_dir p;;
    if negb d
    then raise (Exn NotADirectoryError
                  ("Path is not a directory: " ++ path_str p))
    else
      try_except
        (monitored <- gets (fun w => monitored_paths (self w));;
         if bool_decide (p ∉ monitored)
         then
           schedule p;;
           modify (fun w =>
             set_self (set_monitored ({[p]} ∪ monitored_paths (self w))
                         (self w)) w)
         else ret tt)
        (fun e => Some (emit_error e;; raise e)).

Definition clear_metadata_cache : M unit :=
  modify (fun w => set_self (set_cache ∅ (self w)) w).

End Service.

(** *** Watch registrations *)

(** The number of watches the observer holds for [p]. *)
Definition watch_count (p : Path) (s : FileSystemService) : nat :=
  length (filter (fun q => q = p) (observer_watches s)).

(** Every monitored root has exactly one watch, and nothing else has any. *)
Definition registered_once (s : FileSystemService) : Prop :=
  forall q, watch_count q s = if bool_decide (q ∈ monitored_paths s) then 1%nat else 0%nat.

(** *** What an operation leaves of the disk *)

(** What an operation on [p] leaves of the rest of the disk: the entries
    that are not on the way from the root to [p] are as they were, every
    file other than [p] is as it was, and a directory is still one. *)
Definition disk_frame (p : Path) (d d' : gmap Path node) : Prop :=
  (forall q, ~ q `prefix_of` p -> d' !! q = d !! q)
  /\ (forall q data mtime, q <> p ->
        d !! q = Some (File data mtime) -> d' !! q = Some (File data mtime))
  /\ (forall q dsize mtime,
        d !! q = Some (Dir dsize mtime) ->
        exists dsize' mtime', d' !! q = Some (Dir dsize' mtime')).

(** Calls of [start_monitoring p] one after the other, each finding the
    operating system in the state given for it. *)
Fixpoint start_monitoring_seq (p : Path) (envs : list os_state)
    (s : FileSystemService) : FileSystemService :=
  match envs with
  | [] => s
  | e :: envs' =>
    start_monitoring_seq p envs'
      (self (snd (start_monitoring p {| os := e; self := s |})))
  end.

End FileSystem.

(** ** services/ai_service.py *)
Module AI.

Import FileSystem (Path, path_str).

(** *** AsyncRateLimiter

    [datetime.now()] is an integer count of microseconds.  The token
    balance, a float in the source, is an exact rational here: rounding
    is left out. *)
Record AsyncRateLimiter := {
  rate_limit : Z;
  tokens : Q;
  last_update : Z
}.

(** [AsyncRateLimiter(requests_per_minute)], made at time [now]. *)
Definition new_limiter (requests_per_minute : Z) (now : Z) : AsyncRateLimiter := {|
  rate_limit := requests_per_minute;
  tokens := inject_Z requests_per_minute;
  last_update := now
|}.

(** [(now - last_update).total_seconds() / 60.0] *)
Definition minutes_between (last_update now : Z) : Q :=
  Qmake (now - last_update) 60000000.

(** One round of the [while self.tokens <= 0] loop, entered at [now]. *)
Definition refill (now : Z) (l : AsyncRateLimiter) : AsyncRateLimiter :=
  let time_passed := minutes_between (last_update l) now in
  {| rate_limit := rate_limit l;
     tokens := Qmin (inject_Z (rate_limit l))
                 (tokens l + time_passed * inject_Z (rate_limit l))%Q;
     last_update := now |}.

(** The loop of [acquire].  Each round reads the clock once; [readings]
    are the successive values of [datetime.now()], the sleep of a tenth
    of a second showing only in how far apart they are.  [None]: the
    balance is still not positive when the readings run out. *)
Fixpoint wait_for_token (readings : list Z) (l : AsyncRateLimiter)
  : option (AsyncRateLimiter * list Z) :=
  if Qle_bool (tokens l) 0 then
    match readings with
    | [] => None
    | now :: readings' => wait_for_token readings' (refill now l)
    end
  else Some (l, readings).

Definition take_token (l : AsyncRateLimiter) : AsyncRateLimiter :=
  {| rate_limit := rate_limit l;
     tokens := (tokens l - 1)%Q;
     last_update := last_update l |}.

(** [await self.rate_limiter.acquire()]; the lock makes concurrent
    callers take turns, so one call runs at a time. *)
Definition acquire (readings : list Z) (l : AsyncRateLimiter)
  : option (AsyncRateLimiter * list Z) :=
  match wait_for_token readings l with
  | Some (l', rest) => Some (take_token l', rest)
  | None => None
  end.

(** The limiter states a program can reach. *)
Inductive reachable : AsyncRateLimiter -> Prop :=
  | reachable_new rpm now : reachable (new_limiter rpm now)
  | reachable_acquire l readings l' rest :
      reachable l -> acquire readings l = Some (l', rest) -> reachable l'.

(** *** Context, responses, signals

    The service never encodes or decodes the text it handles, so a [str]
    is a Rocq string here. *)

Record AIContext := {
  workspace_path : option Path;
  selected_files : list Path;
  last_command : option string;
  last_response : option string;
  timestamp : Z
}.

(** The [metadata] dictionary of a response, by key. *)
Record response_metadata := {
  md_model : string;
  md_timestamp : Z;
  md_tokens_used : Z
}.

(** [AIResponse]; its field [context] is [response_context] here, the
    name [context] being the service's attribute. *)
Record AIResponse := {
  content : string;
  response_context : option AIContext;
  metadata : response_metadata
}.

(** The signals of [AIEventEmitter]. *)
Inductive signal :=
  | response_started
  | response_chunk (text : string)
  | response_complete (r : AIResponse)
  | error_occurred (msg : string).

(** What [self.client.messages.create] is called with. *)
Record request := {
  req_model : string;
  req_max_tokens : Z;
  req_system : string;
  req_user : string;
  req_stream : bool
}.

(** [sent] lists the requests handed to [self.client] and [emitted] the
    signals, both oldest first. *)
Record AIService := {
  model : string;
  context : option AIContext;
  rate_limiter : AsyncRateLimiter;
  _is_initialized : bool;
  sent : list request;
  emitted : list signal
}.

Definition default_model : string := "claude-3-opus-20240229".

(** [AIService(api_key, model)] for a non-empty key, made at [now]. *)
Definition new (model : string) (now : Z) : AIService := {|
  model := model;
  context := None;
  rate_limiter := new_limiter 50 now;
  _is_initialized := false;
  sent := [];
  emitted := []
|}.

Definition set_context (c : option AIContext) (s : AIService) : AIService :=
  {| model := model s; context := c; rate_limiter := rate_limiter s;
     _is_initialized := _is_initialized s; sent := sent s;
     emitted := emitted s |}.

Definition set_rate_limiter (l : AsyncRateLimiter) (s : AIService) : AIService :=
  {| model := model s; context := context s; rate_limiter := l;
     _is_initialized := _is_initialized s; sent := sent s;
     emitted := emitted s |}.

Definition set_initialized (b : bool) (s : AIService) : AIService :=
  {| model := model s; context := context s; rate_limiter := rate_limiter s;
     _is_initialized := b; sent := sent s; emitted := emitted s |}.

Definition send (r : request) (s : AIService) : AIService :=
  {| model := model s; context := context s; rate_limiter := rate_limiter s;
     _is_initialized := _is_initialized s; sent := sent s ++ [r];
     emitted := emitted s |}.

Definition emit (sg : signal) (s : AIService) : AIService :=
  {| model := model s; context := context s; rate_limiter := rate_limiter s;
     _is_initialized := _is_initialized s; sent := sent s;
     emitted := emitted s ++ [sg] |}.

(** *** update_context *)

(** [x.last_command if x else None], and the like. *)
Definition carried {A} (field : AIContext -> option A) (c : option AIContext)
  : option A :=
  match c with
  | Some c => field c
  | None => None
  end.

(** [selected_files or []] *)
Definition or_empty (selected_files : option (list Path)) : list Path :=
  match selected_files with
  | Some (f :: fs) => f :: fs
  | Some [] | None => []
  end.

(** [update_context(workspace_path, selected_files)]; an omitted argument
    is [None], and [now] is what [datetime.now()] answers. *)
Definition update_context (workspace_path : option Path)
    (selected_files : option (list Path)) (now : Z) (s : AIService)
  : AIService :=
  set_context (Some {|
    workspace_path := workspace_path;
    selected_files := or_empty selected_files;
    last_command := carried last_command (context s);
    last_response := carried last_response (context s);
    timestamp := now
  |}) s.

(** *** _build_system_prompt *)

Definition LF : string := String "010"%char "".

Definition base_instruction : string :=
  "You are an AI assistant helping with file management.".

(** [str(x)] for an optional path. *)
Definition str_optional_path (p : option Path) : string :=
  match p with
  | Some p => path_str p
  | None => "None"
  end.

(** The truth value of an optional string: [None] and [""] are false. *)
Definition truthy (s : option string) : bool :=
  match s with
  | Some (String _ _) => true
  | Some EmptyString | None => false
  end.

Definition _build_system_prompt (s : AIService) : string :=
  match context s with
  | None => base_instruction
  | Some c =>
    let prompt_parts :=
      [base_instruction;
       ("Current workspace: " ++ str_optional_path (workspace_path c))%string] in
    let prompt_parts :=
      match selected_files c with
      | [] => prompt_parts
      | _ :: _ =>
        let files_str := String.concat LF (path_str <$> selected_files c) in
        prompt_parts ++ [("Selected files:" ++ LF ++ files_str)%string]
      end in
    let prompt_parts :=
      if truthy (last_command c)
      then prompt_parts
           ++ [("Last command: " ++ default "" (last_command c))%string]
      else prompt_parts in
    String.concat (LF ++ LF)%string prompt_parts
  end.

(** *** process_command *)

(** An event of the response stream; [chunk.content] may be absent. *)
Record chunk := { chunk_content : option string }.

(** What iterating over the stream gives: the chunks in arrival order,
    then either the end of the stream or an exception. *)
Record stream := {
  chunks : list chunk;
  failure : option exn
}.

(** The outside of one call: the clock readings of the limiter's loop,
    the remote endpoint, and the two later readings of [datetime.now()]
    (for the context's timestamp and for the response's metadata). *)
Record exchange := {
  readings : list Z;
  endpoint : request -> outcome stream;
  context_time : Z;
  response_time : Z
}.

(** Whether a character counts as white space for [str.split()]. *)
Definition is_space (c : ascii) : bool :=
  let n := N_of_ascii c in
  (((9 <=? n) && (n <=? 13)) || ((28 <=? n) && (n <=? 32))
   || (n =? 133) || (n =? 160))%N.

(** [len(s.split())]: the number of maximal runs of other characters. *)
Fixpoint count_words (in_word : bool) (s : string) : Z :=
  match s with
  | EmptyString => 0
  | String c s' =>
    if is_space c then count_words false s'
    else (if in_word then 0 else 1) + count_words true s'
  end.

(** The loop over the stream: [full_response] grows and a signal goes
    out for every chunk whose content is true. *)
Fixpoint consume (cs : list chunk) (full_response : list string) (s : AIService)
  : list string * AIService :=
  match cs with
  | [] => (full_response, s)
  | c :: cs' =>
    if truthy (chunk_content c)
    then
      let text := default "" (chunk_content c) in
      consume cs' (full_response ++ [text]) (emit (response_chunk text) s)
    else consume cs' full_response s
  end.

(** [self.context.last_command = command] and the two assignments that
    follow it. *)
Definition record_exchange (command complete_response : string) (now : Z)
    (c : AIContext) : AIContext :=
  {| workspace_path := workspace_path c;
     selected_files := selected_files c;
     last_command := Some command;
     last_response := Some complete_response;
     timestamp := now |}.

(** [self.context.copy()]: the data class [AIContext] defines no method
    [copy], so the attribute lookup raises. *)
Definition context_copy (c : AIContext) : outcome AIContext :=
  Raise (Exn AttributeError "'AIContext' object has no attribute 'copy'").

(** The arguments of [self.client.messages.create] for [command]. *)
Definition request_of (command : string) (s : AIService) : request :=
  let system_prompt := _build_system_prompt s in
  {| req_model := model s;
     req_max_tokens := 4000;
     req_system := system_prompt;
     req_user := command;
     req_stream := true |}.

(** The body of the [try] statement. *)
Definition try_body (command : string) (x : exchange) (s : AIService)
  : outcome AIResponse * AIService :=
  let messages := request_of command s in
  let s := emit response_started s in
  let s := send messages s in
  match endpoint x messages with
  | Raise e => (Raise e, s)
  | Ok response =>
    let '(full_response, s) := consume (chunks response) [] s in
    match failure response with
    | Some e => (Raise e, s)
    | None =>
      let complete_response := String.concat "" full_response in
      let s :=
        match context s with
        | Some c =>
          set_context
            (Some (record_exchange command complete_response (context_time x) c)) s
        | None => s
        end in
      let copied :=
        match context s with
        | Some c =>
          match context_copy c with
          | Ok c' => Ok (Some c')
          | Raise e => Raise e
          end
        | None => Ok None
        end in
      match copied with
      | Raise e => (Raise e, s)
      | Ok snapshot =>
        let ai_response := {|
          content := complete_response;
          response_context := snapshot;
          metadata := {|
            md_model := model s;
            md_timestamp := response_time x;
            md_tokens_used := count_words false complete_response
          |}
        |} in
        (Ok ai_response, emit (response_complete ai_response) s)
      end
    end
  end.

(** The [except] clauses, in their order.  [APIConnectionError] and
    [APIStatusError] are the [APIError]s that the first two clauses let
    through; every other class reaches [except Exception]. *)
Definition handle (e : exn) (s : AIService) : outcome AIResponse * AIService :=
  match exn_cls e with
  | APITimeoutError =>
    let error_msg := "AI request timed out" in
    (Raise (Exn ConnectionError error_msg), emit (error_occurred error_msg) s)
  | RateLimitError =>
    let error_msg := "AI rate limit exceeded" in
    (Raise e, emit (error_occurred error_msg) s)
  | APIConnectionError | APIStatusError =>
    let error_msg := ("AI API error: " ++ exn_msg e)%string in
    (Raise (Exn ConnectionError error_msg), emit (error_occurred error_msg) s)
  | _ =>
    let error_msg := ("Unexpected error in AI processing: " ++ exn_msg e)%string in
    (Raise e, emit (error_occurred error_msg) s)
  end.

(** [process_command(command)].  [None]: the call is still waiting in
    the limiter when the clock readings of [x] run out. *)
Definition process_command (command : string) (x : exchange) (s : AIService)
  : option (outcome AIResponse * AIService) :=
  if negb (_is_initialized s)
  then Some (Raise (Exn RuntimeError "AIService not initialized"), s)
  else
    match acquire (readings x) (rate_limiter s) with
    | None => None
    | Some (l, _) =>
      let s := set_rate_limiter l s in
      match try_body command x s with
      | (Ok r, s') => Some (Ok r, s')
      | (Raise e, s') => Some (handle e s')
      end
    end.

(** *** Vocabulary for the statements below *)

(** The text of a chunk, empty when it has none. *)
Definition chunk_text (c : chunk) : string := default "" (chunk_content c).

(** The texts of the chunks that have some, in arrival order. *)
Definition spoken (cs : list chunk) : list string :=
  chunk_text <$> filter (fun c => truthy (chunk_content c) = true) cs.

(** The service after it has emitted [sgs], in that order. *)
Definition emit_all (sgs : list signal) (s : AIService) : AIService :=
  {| model := model s; context := context s; rate_limiter := rate_limiter s;
     _is_initialized := _is_initialized s; sent := sent s;
     emitted := emitted s ++ sgs |}.

(** The prompt as the specification words it: the base instruction, then
    the workspace if one is set, then the selected files if there are
    any, then the last command if there is one, joined by blank lines. *)
Definition specified_prompt (c : option AIContext) : string :=
  let workspace :=
    match carried workspace_path c with
    | Some w => [("Current workspace: " ++ path_str w)%string]
    | None => []
    end in
  let selection :=
    match c with
    | Some {| selected_files := f :: fs |} =>
      [("Selected files:" ++ LF ++ String.concat LF (path_str <$> f :: fs))%string]
    | _ => []
    end in
  let command :=
    match carried last_command c with
    | Some (String a cmd) => [("Last command: " ++ String a cmd)%string]
    | _ => []
    end in
  String.concat (LF ++ LF)%string
    ([base_instruction] ++ workspace ++ selection ++ command).

(** [n] calls of [acquire] in a row that never have to wait. *)
Fixpoint drain (n : nat) (l : AsyncRateLimiter) : option AsyncRateLimiter :=
  match n with
  | O => Some l
  | S n' =>
    match acquire [] l with
    | Some (l', _) => drain n' l'
    | None => None
    end
  end.

End AI.

(** ** The watchdog handler *)
Module Watcher.

Import FileSystem.

(** A watchdog event, as far as [FileSystemHandler] reads it. *)
Record watch_event := { is_directory : bool; src_path : Path }.

Definition on_created (event : watch_event) (s : FileSystemService)
  : FileSystemService :=
  if negb (is_directory event) then emit (file_created (src_path event)) s else s.

Definition on_modified (event : watch_event) (s : FileSystemService)
  : FileSystemService :=
  if negb (is_directory event) then emit (file_modified (src_path event)) s else s.

Definition on_deleted (event : watch_event) (s : FileSystemService)
  : FileSystemService :=
  if negb (is_directory event) then emit (file_deleted (src_path event)) s else s.

(** The kinds of event the observer hands to a handler; the handler
    overrides three of the methods and inherits the others, which do
    nothing. *)
Inductive event_type := EvCreated | EvModified | EvDeleted | EvMoved | EvOther.

Definition dispatch (t : event_type) (event : watch_event) (s : FileSystemService)
  : FileSystemService :=
  match t with
  | EvCreated => on_created event s
  | EvModified => on_modified event s
  | EvDeleted => on_deleted event s
  | EvMoved | EvOther => s
  end.

Fixpoint dispatch_all (events : list (event_type * watch_event))
    (s : FileSystemService) : FileSystemService :=
  match events with
  | [] => s
  | (t, event) :: events' => dispatch_all events' (dispatch t event s)
  end.

(** The signal an event is surfaced as, if it is surfaced. *)
Definition surfaced (te : event_type * watch_event) : option signal :=
  let '(t, event) := te in
  if is_directory event then None
  else match t with
       | EvCreated => Some (file_created (src_path event))
       | EvModified => Some (file_modified (src_path event))
       | EvDeleted => Some (file_deleted (src_path event))
       | EvMoved | EvOther => None
       end.

End Watcher.

(** ** Callers of the file system service *)
Module Session.

Import FileSystem.

(** The calls a client makes on the service. *)
Inductive call :=
  | GetMetadata (p : Path)
  | ReadFile (p : Path)
  | WriteFile (p : Path) (content : Utf8.text) (create_dirs : bool)
  | DeleteFile (p : Path)
  | StartMonitoring (p : Path)
  | ClearMetadataCache.

(** A step of a session: a call, or the operating system being changed
    from outside, into any state at all. *)
Inductive step :=
  | Call (c : call)
  | Outside (o : os_state).

Section Session.

Variable magic_from_file : node -> string.

Definition run_call (c : call) (w : world) : world :=
  match c with
  | GetMetadata p => snd (get_metadata magic_from_file p w)
  | ReadFile p => snd (read_file p w)
  | WriteFile p content create_dirs => snd (write_file p content create_dirs w)
  | DeleteFile p => snd (delete_file p w)
  | StartMonitoring p => snd (start_monitoring p w)
  | ClearMetadataCache => snd (clear_metadata_cache w)
  end.

Definition run_step (st : step) (w : world) : world :=
  match st with
  | Call c => run_call c w
  | Outside o => {| os := o; self := self w |}
  end.

Fixpoint run (steps : list step) (w : world) : world :=
  match steps with
  | [] => w
  | st :: steps' => run steps' (run_step st w)
  end.

End Session.

(** Every cached entry is filed under its own path and carries the hidden
    flag of that path's name. *)
Definition cache_coherent (s : FileSystemService) : Prop :=
  forall p md,
    metadata_cache s !! p = Some md ->
    path md = p /\ is_hidden md = startswith_dot (name p).

End Session.

(** ** Consuming the generators of the file system service *)
Module Streams.

Import FileSystem.

(** [[chunk async for chunk in gen]]: the chunks of a generator run to its
    end, with nothing else happening meanwhile.  [None]: not at its end
    after [fuel] requests. *)
Fixpoint collect_chunks (fuel : nat) (g : chunk_reader) (w : world)
  : option (outcome (list (list byte))) :=
  match fuel with
  | O => None
  | S fuel' =>
    match anext g w with
    | (Ok (Some chunk), g', w') =>
      match collect_chunks fuel' g' w' with
      | Some (Ok chunks) => Some (Ok (chunk :: chunks))
      | r => r
      end
    | (Ok None, _, _) => Some (Ok [])
    | (Raise e, _, _) => Some (Raise e)
    end
  end.

(** [path.iterdir()]: the entries of the disk right under [p], in the
    order the operating system gives them. *)
Definition iterdir (p : Path) (d : gmap Path node) : list Path :=
  filter (fun q => q <> [] /\ parent q = p) (fst <$> map_to_list d).

(** Whether a listing yields the metadata of [q]: hidden entries are those
    whose name starts with a dot. *)
Definition shown (include_hidden : bool) (q : Path) : Prop :=
  Is_true (include_hidden || negb (startswith_dot (name q))).

(** The generator that a call of [list_directory] makes: not yet started,
    suspended at its [yield] with the items still to visit, or finished. *)
Inductive dir_lister :=
  | Listing (p : Path) (include_hidden : bool)
  | Visiting (items : list Path) (include_hidden : bool)
  | Finished.

Definition list_directory (p : Path) (include_hidden : bool) : M dir_lister :=
  ret (Listing p include_hidden).

Section Listing.

Variable magic_from_file : node -> string.

(** The [for] loop from [items] on, up to the next [yield].  The inner
    [except] clause names [PermissionError] and [FileNotFoundError];
    without access rights only the second is ever raised here.  Any other
    exception reaches the outer clause. *)
Fixpoint visit (items : list Path) (include_hidden : bool) (w : world)
  : outcome (option FileMetadata) * dir_lister * world :=
  match items with
  | [] => (Ok None, Finished, w)
  | item :: items' =>
    match get_metadata magic_from_file item w with
    | (Ok metadata, w') =>
      if include_hidden || negb (is_hidden metadata)
      then (Ok (Some metadata), Visiting items' include_hidden, w')
      else visit items' include_hidden w'
    | (Raise e, w') =>
      match exn_cls e with
      | FileNotFoundError => visit items' include_hidden w'
      | _ => (Raise e, Finished, snd (emit_error e w'))
      end
    end
  end.

(** [await gen.__anext__()] on a listing. *)
Definition anext_listing (g : dir_lister) (w : world)
  : outcome (option FileMetadata) * dir_lister * world :=
  match g with
  | Listing p include_hidden =>
    match disk (os w) !! p with
    | None =>
      (Raise (Exn FileNotFoundError ("Directory not found: " ++ path_str p)),
       Finished, w)
    | Some (File _ _) =>
      (Raise (Exn NotADirectoryError ("Path is not a directory: " ++ path_str p)),
       Finished, w)
    | Some (Dir _ _) => visit (iterdir p (disk (os w))) include_hidden w
    end
  | Visiting items include_hidden => visit items include_hidden w
  | Finished => (Ok None, Finished, w)
  end.

(** [[m async for m in gen]], with nothing else happening meanwhile. *)
Fixpoint collect_listing (fuel : nat) (g : dir_lister) (w : world)
  : option (outcome (list FileMetadata) * world) :=
  match fuel with
  | O => None
  | S fuel' =>
    match anext_listing g w with
    | (Ok (Some metadata), g', w') =>
      match collect_listing fuel' g' w' with
      | Some (Ok listed, w'') => Some (Ok (metadata :: listed), w'')
      | r => r
      end
    | (Ok None, _, w') => Some (Ok [], w')
    | (Raise e, _, w') => Some (Raise e, w')
    end
  end.

End Listing.

End Streams.

(** ** The life cycle of the AI service *)
Module Lifecycle.

Import AI.

(** [AIService(api_key, model)], made at [now]. *)
Definition construct (api_key : option string) (model : string) (now : Z)
  : outcome AIService :=
  if truthy api_key then Ok (new model now)
  else Raise (Exn ValueError "API key is required").

(** The request that tests the connection; it has no system message,
    for which the empty string stands. *)
Definition probe (s : AIService) : request :=
  {| req_model := model s;
     req_max_tokens := 10;
     req_system := "";
     req_user := "Test connection";
     req_stream := false |}.

(** [initialize()]; [reply] is how the endpoint answers the probe. *)
Definition initialize (reply : outcome unit) (s : AIService)
  : outcome unit * AIService :=
  if _is_initialized s then (Ok tt, s)
  else
    let s := send (probe s) s in
    match reply with
    | Ok _ => (Ok tt, set_initialized true s)
    | Raise e => (Raise e, s)
    end.

(** [cleanup()] *)
Definition cleanup (s : AIService) : AIService :=
  set_initialized false (set_context None s).

(** A run of [update_context] calls, each with its arguments and the
    time it is made at. *)
Fixpoint update_contexts
    (calls : list (option FileSystem.Path * option (list FileSystem.Path) * Z))
    (s : AIService) : AIService :=
  match calls with
  | [] => s
  | (workspace, selection, now) :: calls' =>
    update_contexts calls' (update_context workspace selection now s)
  end.

End Lifecycle.

(** ** ui/main_window.py: the handlers that feed the AI context *)
Module Window.

Import FileSystem (Path, path_str).

(** What [preview_panel] is asked to do; the panel itself is elsewhere. *)
Inductive preview_call :=
  | preview_file (p : Path)
  | clear_preview.

(** The part of [MainWindow] the two handlers touch. *)
Record MainWindow := {
  current_path : option Path;
  selected_files : list Path;
  status_message : string;
  previews : list preview_call;
  ai_service : AI.AIService
}.

(** A coroutine object: the call of an [async def] method, not yet run.
    Awaiting it would run it at some time [now]. *)
Definition coroutine := Z -> AI.AIService -> AI.AIService.

(** An expression statement whose value is a coroutine: the object is
    made and dropped, and its body never runs. *)
Definition not_awaited (c : coroutine) (s : AI.AIService) : AI.AIService := s.

Definition on_current_path_changed (p : Path) (mw : MainWindow) : MainWindow :=
  {| current_path := Some p;
     selected_files := selected_files mw;
     status_message := "Current path: " ++ path_str p;
     previews := previews mw;
     ai_service :=
       not_awaited
         (AI.update_context (Some p) (Some (selected_files mw)))
         (ai_service mw) |}.

Definition on_selection_changed (paths : list Path) (mw : MainWindow)
  : MainWindow :=
  {| current_path := current_path mw;
     selected_files := paths;
     status_message := status_message mw;
     previews :=
       previews mw ++ [match paths with
                       | [p] => preview_file p
                       | _ => clear_preview
                       end];
     ai_service :=
       not_awaited
         (AI.update_context (current_path mw) (Some paths))
         (ai_service mw) |}.

(** What the file explorer panel signals. *)
Inductive ui_event :=
  | CurrentPathChanged (p : Path)
  | SelectionChanged (paths : list Path).

Definition handle_event (ev : ui_event) (mw : MainWindow) : MainWindow :=
  match ev with
  | CurrentPathChanged p => on_current_path_changed p mw
  | SelectionChanged paths => on_selection_changed paths mw
  end.

Fixpoint handle_events (evs : list ui_event) (mw : MainWindow) : MainWindow :=
  match evs with
  | [] => mw
  | ev :: evs' => handle_events evs' (handle_event ev mw)
  end.

End Window.

(** ** Checking the codec code point by code point *)
Module Utf8Check.

Import Utf8.
Local Open Scope N_scope.

(** [f] holds of the [fuel] numbers from [cp] on. *)
Fixpoint all_from (fuel : nat) (cp : N) (f : N -> bool) : bool :=
  match fuel with
  | O => true
  | S fuel' => f cp && all_from fuel' (N.succ cp) f
  end.

(** The decoder reads back one encoded code point, and all of it. *)
Definition reads_back (cp : N) : bool :=
  match encode_char cp with
  | None => true
  | Some bs =>
    match next (Byte.to_N <$> bs) with
    | Char cp' used => (cp' =? cp) && (used =? length bs)%nat
    | Invalid _ | Truncated => false
    end
  end.

End Utf8Check.

(** ** Sample worlds

    Concrete inputs on which the operations are run in the examples that
    follow the definitions. *)
Module Samples.

Import FileSystem.

(** A stand-in for the content sniffer. *)
Definition sniff_plain (n : node) : string :=
  match n with
  | Dir _ _ => "inode/directory"
  | File [] _ => "inode/x-empty"
  | File (_ :: _) _ => "text/plain"
  end.

Definition home : Path := ["home"].
Definition notes : Path := ["home"; "notes.txt"].
Definition absent : Path := ["home"; "absent.bin"].

Definition disk0 : gmap Path node :=
  <[notes := File [x68; x69]%byte 10]>
    (<[home := Dir 4096 5]> (<[[] := Dir 4096 0]> ∅)).

Definition os0 : os_state :=
  {| disk := disk0; clock := 20; watch_refusal := fun _ => None |}.

(** A fresh service over [disk0]. *)
Definition w0 : world := {| os := os0; self := new default_chunk_size |}.

(** After a first lookup of [notes], its metadata is cached. *)
Definition w_cached : world := snd (get_metadata sniff_plain notes w0).

(** Another program then removes [notes] from the disk. *)
Definition w_stale : world := snd (unlink notes w_cached).

(** The text ["hello"] and a file holding an invalid byte before ["a"]. *)
Definition hello : Utf8.text := [104; 101; 108; 108; 111]%N.

Definition w_bad_bytes : world :=
  set_disk (<[notes := File [xff; x61]%byte 10]> disk0) w0.

(** A service that has been initialised and given no context. *)
Definition ai0 : AI.AIService :=
  AI.set_initialized true (AI.new AI.default_model 0).

Definition say (text : string) : AI.chunk := {| AI.chunk_content := Some text |}.

(** An endpoint that streams the given chunks and closes the stream. *)
Definition streaming (cs : list AI.chunk) : AI.exchange :=
  {| AI.readings := [];
     AI.endpoint := fun _ => Ok {| AI.chunks := cs; AI.failure := None |};
     AI.context_time := 7;
     AI.response_time := 8 |}.

(** An endpoint that streams one chunk and then times out. *)
Definition timing_out : AI.exchange :=
  {| AI.readings := [];
     AI.endpoint := fun _ =>
       Ok {| AI.chunks := [say "Hel"];
             AI.failure := Some (Exn APITimeoutError "Request timed out.") |};
     AI.context_time := 7;
     AI.response_time := 8 |}.

(** [ai0] after a command during which [timing_out] answered. *)
Definition ai_timed_out : AI.AIService :=
  AI.emit (AI.error_occurred "AI request timed out")
    (AI.emit (AI.response_chunk "Hel")
       (AI.send (AI.request_of "list files" ai0)
          (AI.emit AI.response_started
             (AI.set_rate_limiter (AI.take_token (AI.rate_limiter ai0)) ai0)))).

(** The service's limiter after fifty requests in the same instant. *)
Definition drained : AI.AsyncRateLimiter :=
  default (AI.new_limiter 50 0) (AI.drain 50 (AI.new_limiter 50 0)).

End Samples.

(** ** More sample worlds *)
Module Scenarios.

Import FileSystem.

Definition w_zero : world := {| os := Samples.os0; self := new 0 |}.

(** A path two directories below anything on [Samples.disk0]. *)
Definition deep : Path := ["home"; "docs"; "new"; "a.txt"].

(** A text that UTF-8 cannot encode: a lone surrogate. *)
Definition surrogate : Utf8.text := [0xD800]%N.

Definition watch_limit : exn :=
  Exn OSError "[Errno 28] inotify watch limit reached".

(** An operating system that refuses every new watch. *)
Definition w_refusing : world :=
  {| os := {| disk := Samples.disk0; clock := 20;
              watch_refusal := fun _ => Some watch_limit |};
     self := new default_chunk_size |}.

(** [Samples.ai0] once a workspace has been set. *)
Definition ai_with_context : AI.AIService :=
  AI.update_context (Some Samples.home) None 3 Samples.ai0.

Definition two_chunks : list AI.chunk := [Samples.say "Hel"; Samples.say "lo"].

(** A service over [Samples.disk0] made with a chunk size below [-1]. *)
Definition w_refused : world := {| os := Samples.os0; self := new (-2) |}.

(** [Samples.disk0] with a directory next to [Samples.notes]. *)
Definition docs : Path := ["home"; "docs"].

Definition w_nested : world :=
  set_disk (<[docs := Dir 4096 6]> Samples.disk0) Samples.w0.

End Scenarios.

(** * Properties of the file system service *)
Module FileSystemProofs.

Import FileSystem.
Local Open Scope fs_scope.

(** Running a method symbolically: the operations are unfolded down to
    the lookups on the disk, which [Hd] then settles. *)
Ltac unfold_ops :=
  unfold try_except, exists_, is_dir, stat, sniff, read_text, read_lossy,
    read_bytes, cache_put, cache_pop, emit_error, schedule, gets, modify,
    bind, ret, raise.

Ltac run_with Hd := unfold_ops; simpl; repeat (rewrite Hd; simpl).

Section Service.

Variable magic_from_file : node -> string.

Local Abbreviation get_metadata := (get_metadata magic_from_file).

(** A lookup that misses the cache and finds a file at the path stats it
    and caches what it found. *)
Lemma get_metadata_miss (w : world) (p : Path) (data : list byte) (mtime : Z) :
  metadata_cache (self w) !! p = None ->
  disk (os w) !! p = Some (File data mtime) ->
  let md := {| path := p;
               size := Z.of_nat (length data);
               modified_time := mtime;
               mime_type := magic_from_file (File data mtime);
               is_hidden := startswith_dot (name p) |} in
  get_metadata p w
  = (Ok md, set_self (set_cache (<[p := md]> (metadata_cache (self w))) (self w)) w).
Proof.
  intros Hc Hd. unfold FileSystem.get_metadata. unfold_ops. simpl.
  rewrite Hc. simpl. repeat (rewrite Hd; simpl). reflexivity.
Qed.

(** A lookup that misses the cache and finds a directory at the path
    raises what the sniffer raises, and caches nothing. *)
Lemma get_metadata_dir (w : world) (p : Path) (dsize mtime : Z) :
  metadata_cache (self w) !! p = None ->
  disk (os w) !! p = Some (Dir dsize mtime) ->
  get_metadata p w = (Raise (EISDIR p), w).
Proof.
  intros Hc Hd. unfold FileSystem.get_metadata. unfold_ops. simpl.
  rewrite Hc. simpl. repeat (rewrite Hd; simpl). reflexivity.
Qed.

(** A lookup that misses the cache and finds nothing at the path. *)
Lemma get_metadata_none (w : world) (p : Path) :
  metadata_cache (self w) !! p = None ->
  disk (os w) !! p = None ->
  get_metadata p w
  = (Raise (Exn FileNotFoundError ("File not found: " ++ path_str p)), w).
Proof.
  intros Hc Hd. unfold FileSystem.get_metadata. unfold_ops. simpl.
  rewrite Hc. simpl. rewrite Hd. reflexivity.
Qed.

Lemma get_metadata_hit (w : world) (p : Path) (md : FileMetadata) :
  metadata_cache (self w) !! p = Some md ->
  get_metadata p w = (Ok md, w).
Proof.
  intros Hc. unfold FileSystem.get_metadata. unfold_ops. simpl.
  rewrite Hc. reflexivity.
Qed.

(** For a path that is not on disk at lookup time, [get_metadata]
    answers from the cache alone: it raises [FileNotFoundError] when the
    path has no cached entry, and returns the cached entry, unchecked,
    when it has one. *)
Theorem get_metadata_absent_path (w : world) (p : Path) :
  disk (os w) !! p = None ->
  get_metadata p w
  = (match metadata_cache (self w) !! p with
     | Some md => Ok md
     | None => Raise (Exn FileNotFoundError ("File not found: " ++ path_str p))
     end, w).
Proof.
  intros Hd. destruct (metadata_cache (self w) !! p) as [md|] eqn:Hc.
  - now apply get_metadata_hit.
  - unfold FileSystem.get_metadata. unfold_ops. simpl.
    rewrite Hc. simpl. rewrite Hd. reflexivity.
Qed.

(** Making directories touches neither the clock nor the service. *)
Lemma mkdir_from_frame (todo done : Path) (w w1 : world) (o : outcome unit) :
  mkdir_from done todo w = (o, w1) ->
  clock (os w1) = clock (os w) /\ self w1 = self w.
Proof.
  revert done w. induction todo as [|c todo IH]; intros done w H; simpl in H.
  - inversion H; subst. split; reflexivity.
  - destruct (disk (os w) !! (done ++ [c])) as [[data mt|sz mt]|] eqn:E.
    + inversion H; subst. split; reflexivity.
    + apply IH in H. exact H.
    + apply IH in H. destruct H as [H1 H2]. simpl in *. split; assumption.
Qed.

(** An open for writing that succeeds leaves an empty file at the path;
    the rest of the disk is as it was, with the parent directory stamped
    if the file is new. *)
Lemma open_w_ok (p : Path) (w w1 : world) :
  open_w p w = (Ok tt, w1) ->
  exists d,
    w1 = set_disk (<[p := File [] (clock (os w))]> d) w
    /\ (d = disk (os w)
        \/ d = touch_dir (parent p) (clock (os w)) (disk (os w))).
Proof.
  unfold open_w. intros H.
  destruct (disk (os w) !! p) as [[? ?|? ?]|];
    destruct (disk (os w) !! parent p) as [[? ?|? ?]|];
    inversion H; eauto.
Qed.

(** An open for writing that fails changes nothing. *)
Lemma open_w_raises (p : Path) (w w1 : world) (e : exn) :
  open_w p w = (Raise e, w1) -> w1 = w.
Proof.
  unfold open_w. intros H.
  destruct (disk (os w) !! p) as [[? ?|? ?]|];
    destruct (disk (os w) !! parent p) as [[? ?|? ?]|];
    inversion H; reflexivity.
Qed.

(** What a completed [write_file] leaves behind: the file holds the
    encoded content, stamped with the time of the write, and the cache
    has no entry for the path. *)
Lemma write_file_ok (w w' : world) (p : Path) (content : Utf8.text)
    (create_dirs : bool) :
  write_file p content create_dirs w = (Ok tt, w') ->
  exists data,
    Utf8.encode content = Some data
    /\ disk (os w') !! p = Some (File data (clock (os w)))
    /\ metadata_cache (self w') !! p = None.
Proof.
  unfold write_file, bind, when. intros H.
  destruct (if create_dirs then mkdir_parents (parent p) else ret tt) eqn:Hmk;
    try discriminate.
  assert (Hfr : clock (os w0) = clock (os w) /\ self w0 = self w).
  { destruct create_dirs.
    - unfold mkdir_parents in Hmk.
      destruct (mkdir_from [] (parent p) w) as [o1 w1] eqn:E.
      apply mkdir_from_frame in E. inversion Hmk; subst. exact E.
    - unfold ret in Hmk. inversion Hmk; subst. split; reflexivity. }
  destruct o as [[]|e]; [|discriminate].
  destruct (open_w p w0) as [[[]|e] w1] eqn:Hop; [|discriminate].
  apply open_w_ok in Hop. destruct Hop as (d & -> & _).
  destruct (Utf8.encode content) as [data|] eqn:Henc.
  - unfold flush_w, cache_pop, modify in H. simpl in H.
    inversion H; subst. clear H. exists data. simpl.
    destruct Hfr as [Hclock _]. rewrite Hclock.
    split; [reflexivity|]. split.
    + apply lookup_insert_eq.
    + apply lookup_delete_eq.
  - unfold raise in H. discriminate.
Qed.

(** A write completes whenever the parent is a directory, the path is
    not one, and the content can be encoded. *)
Lemma write_file_completes (w : world) (p : Path) (content : Utf8.text)
    (data : list byte) (dsize mtime : Z) :
  disk (os w) !! parent p = Some (Dir dsize mtime) ->
  (forall dsize' mtime', disk (os w) !! p <> Some (Dir dsize' mtime')) ->
  Utf8.encode content = Some data ->
  exists w', write_file p content false w = (Ok tt, w').
Proof.
  intros Hpar Hp Henc. unfold write_file, when, open_w, flush_w. unfold_ops.
  simpl. rewrite Hpar, Henc.
  destruct (disk (os w) !! p) as [[? ?|sz mt]|] eqn:Hd; simpl; eauto.
  exfalso. exact (Hp sz mt eq_refl).
Qed.

(** C5.  Once [write_file] has completed, the path has no cached
    metadata, and the next [get_metadata] stats the path: it reports
    the size of the content just written and the time of that write,
    whatever the cache held before. *)
Theorem write_file_invalidates_metadata (w w' : world) (p : Path)
    (content : Utf8.text) (create_dirs : bool) :
  write_file p content create_dirs w = (Ok tt, w') ->
  exists data,
    Utf8.encode content = Some data
    /\ metadata_cache (self w') !! p = None
    /\ fst (get_metadata p w')
       = Ok {| path := p;
               size := Z.of_nat (length data);
               modified_time := clock (os w);
               mime_type := magic_from_file (File data (clock (os w)));
               is_hidden := startswith_dot (name p) |}.
Proof.
  intros H. apply write_file_ok in H. destruct H as (data & Henc & Hd & Hc).
  exists data. split; [exact Henc|]. split; [exact Hc|].
  rewrite (get_metadata_miss w' p _ _ Hc Hd). reflexivity.
Qed.

(** Permissive decoding never raises. *)
Lemma decode_loop_ignore_total (fuel : nat) (bs : list N) :
  exists s, Utf8.decode_loop fuel Utf8.Ignore bs = Some s.
Proof.
  revert bs. induction fuel as [|fuel IH]; intros bs; simpl.
  - eauto.
  - destruct bs as [|b bs]; [eauto|].
    destruct (Utf8.next (b :: bs)) as [cp used|skip|].
    + destruct (IH (drop used (b :: bs))) as [s Hs]. rewrite Hs. simpl. eauto.
    + simpl. destruct (IH (drop skip (b :: bs))) as [s Hs]. rewrite Hs.
      simpl. eauto.
    + simpl. eauto.
Qed.

Lemma decode_ignore_total (data : list byte) :
  exists s, Utf8.decode Utf8.Ignore data = Some s.
Proof. apply decode_loop_ignore_total. Qed.

(** C8, as amended.  For an existing file, [read_file] returns the
    whole content decoded as text (strictly, with universal newlines);
    when that decoding fails, it returns the bytes decoded with the
    invalid ones dropped.  It never raises on account of the bytes. *)
Theorem read_file_decodes (w : world) (p : Path) (data : list byte) (mtime : Z) :
  disk (os w) !! p = Some (File data mtime) ->
  exists s,
    read_file p w = (Ok s, w)
    /\ match Utf8.decode Utf8.Strict data with
       | Some t => s = Utf8.universal_newlines t
       | None => Utf8.decode Utf8.Ignore data = Some s
       end.
Proof.
  intros Hd. unfold read_file. run_with Hd.
  destruct (Utf8.decode Utf8.Strict data) as [t|] eqn:Hs.
  - exists (Utf8.universal_newlines t). split; reflexivity.
  - simpl. repeat (rewrite Hd; simpl).
    destruct (decode_ignore_total data) as [s Hi]. rewrite Hi.
    exists s. split; reflexivity.
Qed.

(** C10.  Calling [read_binary] on a path that does not exist makes a
    generator and raises nothing; [FileNotFoundError] is raised when
    the first chunk is asked of that generator. *)
Theorem read_binary_defers_check (w : world) (p : Path) :
  disk (os w) !! p = None ->
  exists g,
    read_binary p w = (Ok g, w)
    /\ anext g w
       = (Raise (Exn FileNotFoundError ("File not found: " ++ path_str p)),
          Closed, w).
Proof.
  intros Hd. exists (Created p). split; [reflexivity|].
  simpl. rewrite Hd. reflexivity.
Qed.

End Service.

Lemma registered_once_new (chunk_size : Z) : registered_once (new chunk_size).
Proof. intros q. reflexivity. Qed.

Lemma watch_count_add_watch (p q : Path) (s : FileSystemService) :
  watch_count q (add_watch p s)
  = (watch_count q s + if bool_decide (p = q) then 1 else 0)%nat.
Proof.
  unfold watch_count, add_watch. simpl. rewrite filter_app, length_app.
  f_equal. rewrite filter_cons, filter_nil.
  destruct (decide (p = q)) as [->|Hne].
  - rewrite bool_decide_eq_true_2 by reflexivity. reflexivity.
  - rewrite bool_decide_eq_false_2 by assumption. reflexivity.
Qed.

(** A call on a root that is already monitored changes nothing, and
    returns normally if the root is still a directory. *)
Lemma start_monitoring_registered (e : os_state) (s : FileSystemService)
    (p : Path) :
  p ∈ monitored_paths s ->
  snd (start_monitoring p {| os := e; self := s |}) = {| os := e; self := s |}
  /\ (forall dsize mtime, disk e !! p = Some (Dir dsize mtime) ->
      fst (start_monitoring p {| os := e; self := s |}) = Ok tt).
Proof.
  intros Hin. unfold start_monitoring.
  destruct (disk e !! p) as [[data mt|sz mt]|] eqn:Hd; run_with Hd.
  - split; [reflexivity|]. intros; discriminate.
  - rewrite bool_decide_eq_false_2 by (intros Hn; exact (Hn Hin)).
    split; reflexivity.
  - split; [reflexivity|]. intros; discriminate.
Qed.

(** A call that returns normally leaves the root monitored, with the
    registrations still one watch per root. *)
Lemma start_monitoring_ok (e : os_state) (s : FileSystemService) (p : Path) :
  registered_once s ->
  fst (start_monitoring p {| os := e; self := s |}) = Ok tt ->
  let s' := self (snd (start_monitoring p {| os := e; self := s |})) in
  p ∈ monitored_paths s' /\ registered_once s'.
Proof.
  intros Hinv. unfold start_monitoring.
  destruct (disk e !! p) as [[data mt|sz mt]|] eqn:Hd; run_with Hd;
    try discriminate.
  destruct (decide (p ∈ monitored_paths s)) as [Hin|Hnin].
  - rewrite bool_decide_eq_false_2 by (intros Hn; exact (Hn Hin)).
    simpl. intros _. split; assumption.
  - rewrite bool_decide_eq_true_2 by assumption. simpl.
    destruct (watch_refusal e p) as [err|]; simpl; intros Hok;
      [discriminate Hok|].
    split; [set_solver|].
    intros q. specialize (Hinv q).
    change (watch_count q (set_monitored ({[p]} ∪ monitored_paths s) (add_watch p s)))
      with (watch_count q (add_watch p s)).
    rewrite watch_count_add_watch, Hinv. simpl.
    destruct (decide (p = q)) as [<-|Hne].
    + rewrite (bool_decide_eq_true_2 (p = p)) by reflexivity.
      rewrite (bool_decide_eq_false_2 (p ∈ monitored_paths s)) by assumption.
      rewrite (bool_decide_eq_true_2 (p ∈ {[p]} ∪ monitored_paths s))
        by set_solver.
      reflexivity.
    + rewrite (bool_decide_eq_false_2 (p = q)) by assumption.
      destruct (decide (q ∈ monitored_paths s)).
      * rewrite (bool_decide_eq_true_2 (q ∈ monitored_paths s)) by assumption.
        rewrite (bool_decide_eq_true_2 (q ∈ {[p]} ∪ monitored_paths s))
          by set_solver.
        reflexivity.
      * rewrite (bool_decide_eq_false_2 (q ∈ monitored_paths s)) by assumption.
        rewrite (bool_decide_eq_false_2 (q ∈ {[p]} ∪ monitored_paths s))
          by (intros [Hq|Hq]%elem_of_union;
              [apply elem_of_singleton in Hq; congruence|contradiction]).
        reflexivity.
Qed.

(** A call that raises schedules nothing and registers nothing. *)
Lemma start_monitoring_raises (e : os_state) (s : FileSystemService) (p : Path)
    (err : exn) :
  fst (start_monitoring p {| os := e; self := s |}) = Raise err ->
  let s' := self (snd (start_monitoring p {| os := e; self := s |})) in
  observer_watches s' = observer_watches s
  /\ monitored_paths s' = monitored_paths s.
Proof.
  unfold start_monitoring.
  destruct (disk e !! p) as [[data mt|sz mt]|] eqn:Hd; run_with Hd;
    try (intros _; split; reflexivity).
  destruct (bool_decide (p ∉ monitored_paths s)); simpl.
  - destruct (watch_refusal e p) as [err'|]; simpl; intros H;
      [split; reflexivity|discriminate H].
  - intros H; discriminate H.
Qed.

(** Every call, however it ends, keeps one watch per monitored root. *)
Lemma start_monitoring_keeps_registration (e : os_state)
    (s : FileSystemService) (p : Path) :
  registered_once s ->
  registered_once (self (snd (start_monitoring p {| os := e; self := s |}))).
Proof.
  intros Hinv.
  destruct (fst (start_monitoring p {| os := e; self := s |})) as [[]|err] eqn:Hr.
  - now apply start_monitoring_ok.
  - destruct (start_monitoring_raises e s p err Hr) as [Hw Hm].
    intros q. unfold watch_count. rewrite Hw, Hm. apply Hinv.
Qed.

Lemma start_monitoring_seq_registered (p : Path) (envs : list os_state)
    (s : FileSystemService) :
  p ∈ monitored_paths s -> start_monitoring_seq p envs s = s.
Proof.
  intros Hin. induction envs as [|e envs IH]; simpl; [reflexivity|].
  destruct (start_monitoring_registered e s p Hin) as [-> _]. exact IH.
Qed.

(** C7.  Once a call of [start_monitoring p] has returned, any number of
    further calls, whatever has happened on the disk in between, leave
    the service as the first call left it: [p] is monitored and the
    observer holds exactly one watch for it. *)
Theorem start_monitoring_idempotent (p : Path) (e : os_state)
    (envs : list os_state) (s : FileSystemService) :
  registered_once s ->
  fst (start_monitoring p {| os := e; self := s |}) = Ok tt ->
  let s1 := self (snd (start_monitoring p {| os := e; self := s |})) in
  let s' := start_monitoring_seq p (e :: envs) s in
  s' = s1 /\ p ∈ monitored_paths s' /\ watch_count p s' = 1%nat
  /\ registered_once s'.
Proof.
  intros Hinv Hok s1 s'.
  destruct (start_monitoring_ok e s p Hinv Hok) as [Hin Hinv1].
  fold s1 in Hin, Hinv1.
  assert (Hs : s' = s1).
  { unfold s'. simpl. fold s1. now apply start_monitoring_seq_registered. }
  rewrite Hs. split; [reflexivity|]. split; [exact Hin|]. split; [|exact Hinv1].
  rewrite (Hinv1 p). rewrite bool_decide_eq_true_2 by exact Hin. reflexivity.
Qed.

Lemma start_monitoring_idempotent_witness :
  registered_once (new default_chunk_size)
  /\ fst (start_monitoring Samples.home Samples.w0) = Ok tt
  /\ let s' := start_monitoring_seq Samples.home
                 [Samples.os0; Samples.os0; os Samples.w_stale]
                 (new default_chunk_size) in
     s' = self (snd (start_monitoring Samples.home Samples.w0))
     /\ Samples.home ∈ monitored_paths s' /\ watch_count Samples.home s' = 1%nat
     /\ registered_once s'.
Proof.
  split; [apply registered_once_new|]. split; [vm_compute; reflexivity|].
  apply (start_monitoring_idempotent Samples.home Samples.os0
           [Samples.os0; os Samples.w_stale] (new default_chunk_size)).
  - apply registered_once_new.
  - vm_compute; reflexivity.
Defined.

Lemma get_metadata_absent_path_witness :
  disk (os Samples.w0) !! Samples.absent = None
  /\ get_metadata Samples.sniff_plain Samples.absent Samples.w0
     = (Raise (Exn FileNotFoundError "File not found: /home/absent.bin"),
        Samples.w0).
Proof.
  split; [reflexivity|].
  exact (get_metadata_absent_path Samples.sniff_plain Samples.w0 Samples.absent
           eq_refl).
Defined.

(** C1, at the input where the code departs from it: [notes] is looked
    up once, then removed from the disk by another program; the second
    lookup does not raise [FileNotFoundError], as the method's docstring
    says it does for a file that does not exist and as [read_file] and
    [delete_file] do for the same path: it returns the entry cached by
    the first. *)
Lemma get_metadata_returns_deleted_entry :
  disk (os Samples.w_stale) !! Samples.notes = None
  /\ fst (get_metadata Samples.sniff_plain Samples.notes Samples.w_stale)
     = Ok {| path := Samples.notes; size := 2; modified_time := 10;
             mime_type := "text/plain"; is_hidden := false |}
  /\ fst (read_file Samples.notes Samples.w_stale)
     = Raise (Exn FileNotFoundError "File not found: /home/notes.txt")
  /\ fst (delete_file Samples.notes Samples.w_stale)
     = Raise (Exn FileNotFoundError "File not found: /home/notes.txt").
Proof. repeat split; vm_compute; reflexivity. Qed.

Lemma write_file_invalidates_metadata_witness :
  write_file Samples.notes Samples.hello true Samples.w_cached
  = (Ok tt, snd (write_file Samples.notes Samples.hello true Samples.w_cached))
  /\ metadata_cache (self Samples.w_cached) !! Samples.notes
     = Some {| path := Samples.notes; size := 2; modified_time := 10;
               mime_type := "text/plain"; is_hidden := false |}
  /\ exists data,
       Utf8.encode Samples.hello = Some data
       /\ metadata_cache
            (self (snd (write_file Samples.notes Samples.hello true
                          Samples.w_cached))) !! Samples.notes = None
       /\ fst (get_metadata Samples.sniff_plain Samples.notes
                 (snd (write_file Samples.notes Samples.hello true
                         Samples.w_cached)))
          = Ok {| path := Samples.notes;
                  size := Z.of_nat (length data);
                  modified_time := 20;
                  mime_type := Samples.sniff_plain (File data 20);
                  is_hidden := false |}.
Proof.
  split; [vm_compute; reflexivity|]. split; [vm_compute; reflexivity|].
  apply (write_file_invalidates_metadata Samples.sniff_plain Samples.w_cached
           _ Samples.notes Samples.hello true).
  vm_compute; reflexivity.
Defined.

Lemma read_file_decodes_witness :
  disk (os Samples.w_bad_bytes) !! Samples.notes = Some (File [xff; x61]%byte 10)
  /\ exists s,
       read_file Samples.notes Samples.w_bad_bytes = (Ok s, Samples.w_bad_bytes)
       /\ match Utf8.decode Utf8.Strict [xff; x61]%byte with
          | Some t => s = Utf8.universal_newlines t
          | None => Utf8.decode Utf8.Ignore [xff; x61]%byte = Some s
          end.
Proof.
  split; [vm_compute; reflexivity|].
  apply (read_file_decodes Samples.w_bad_bytes Samples.notes _ 10).
  vm_compute; reflexivity.
Defined.

(** C8 as stated fails: for a file holding the invalid byte [0xff] and
    then ["a"], decoding with replacement would give U+FFFD and ["a"];
    [read_file] returns ["a"] alone. *)
Lemma read_file_drops_invalid_bytes :
  disk (os Samples.w_bad_bytes) !! Samples.notes = Some (File [xff; x61]%byte 10)
  /\ Utf8.decode Utf8.Strict [xff; x61]%byte = None
  /\ Utf8.decode Utf8.Replace [xff; x61]%byte = Some [0xFFFD; 97]%N
  /\ fst (read_file Samples.notes Samples.w_bad_bytes) = Ok [97]%N
  /\ fst (read_file Samples.notes Samples.w_bad_bytes) <> Ok [0xFFFD; 97]%N.
Proof.
  repeat split; try (vm_compute; reflexivity).
  vm_compute. discriminate.
Qed.

Lemma read_binary_defers_check_witness :
  disk (os Samples.w0) !! Samples.absent = None
  /\ exists g,
       read_binary Samples.absent Samples.w0 = (Ok g, Samples.w0)
       /\ anext g Samples.w0
          = (Raise (Exn FileNotFoundError "File not found: /home/absent.bin"),
             Closed, Samples.w0).
Proof.
  split; [reflexivity|].
  exact (read_binary_defers_check Samples.w0 Samples.absent eq_refl).
Defined.

End FileSystemProofs.

(** * Properties of the AI service *)
Module AIProofs.

Import FileSystem (Path, path_str).
Import AI.

(** ** The rate limiter *)

Lemma wait_for_token_eq (readings : list Z) (l : AsyncRateLimiter) :
  wait_for_token readings l
  = if Qle_bool (tokens l) 0 then
      match readings with
      | [] => None
      | now :: readings' => wait_for_token readings' (refill now l)
      end
    else Some (l, readings).
Proof. destruct readings; reflexivity. Qed.

(** The loop is left with a positive balance, and never with more than
    the capacity if it was entered with no more than the capacity. *)
Lemma wait_for_token_spec (readings : list Z) :
  forall (l l' : AsyncRateLimiter) (rest : list Z),
    wait_for_token readings l = Some (l', rest) ->
    rate_limit l' = rate_limit l
    /\ (0 < tokens l')%Q
    /\ ((tokens l <= inject_Z (rate_limit l))%Q ->
        (tokens l' <= inject_Z (rate_limit l'))%Q).
Proof.
  induction readings as [|now readings IH]; intros l l' rest H;
    rewrite wait_for_token_eq in H;
    destruct (Qle_bool (tokens l) 0) eqn:Hle; try discriminate.
  - inversion H; subst. split; [reflexivity|]. split; [|tauto].
    apply Qnot_le_lt. intros Hc. apply Qle_bool_iff in Hc. congruence.
  - apply IH in H. destruct H as (Hr & Hpos & Hcap). simpl in *.
    split; [exact Hr|]. split; [exact Hpos|]. intros _. apply Hcap.
    apply Q.le_min_l.
  - inversion H; subst. split; [reflexivity|]. split; [|tauto].
    apply Qnot_le_lt. intros Hc. apply Qle_bool_iff in Hc. congruence.
Qed.

Lemma acquire_spec (readings rest : list Z) (l l' : AsyncRateLimiter) :
  acquire readings l = Some (l', rest) ->
  rate_limit l' = rate_limit l
  /\ (-1 < tokens l')%Q
  /\ ((tokens l <= inject_Z (rate_limit l))%Q ->
      (tokens l' <= inject_Z (rate_limit l') - 1)%Q).
Proof.
  unfold acquire. intros H.
  destruct (wait_for_token readings l) as [[l1 rest1]|] eqn:Hw; [|discriminate].
  inversion H; subst. apply wait_for_token_spec in Hw.
  destruct Hw as (Hr & Hpos & Hcap). simpl. split; [exact Hr|]. split.
  - lra.
  - intros Hle. specialize (Hcap Hle). lra.
Qed.

(** A call that finds a positive balance returns at once, reading no
    clock. *)
Lemma acquire_immediate (readings : list Z) (l : AsyncRateLimiter) :
  (0 < tokens l)%Q -> acquire readings l = Some (take_token l, readings).
Proof.
  intros Hpos. unfold acquire. rewrite wait_for_token_eq.
  destruct (Qle_bool (tokens l) 0) eqn:Hle; [|reflexivity].
  apply Qle_bool_iff in Hle. lra.
Qed.

Lemma reachable_within_capacity (l : AsyncRateLimiter) :
  reachable l -> (tokens l <= inject_Z (rate_limit l))%Q.
Proof.
  induction 1 as [rpm now|l readings l' rest _ IH Hacq].
  - simpl. apply Qle_refl.
  - apply acquire_spec in Hacq. destruct Hacq as (_ & _ & Hcap).
    specialize (Hcap IH). lra.
Qed.

Lemma drain_reachable (n : nat) :
  forall l l', reachable l -> drain n l = Some l' -> reachable l'.
Proof.
  induction n as [|n IH]; intros l l' Hr H; simpl in H.
  - inversion H; subst. exact Hr.
  - destruct (acquire [] l) as [[l1 rest]|] eqn:Hacq; [|discriminate].
    eapply IH; [|exact H]. eapply reachable_acquire; eassumption.
Qed.

(** C3, as amended.  After every [acquire] on a reachable limiter the
    balance is at least minus one token and at most one token short of
    the capacity: it never exceeds the capacity, and it can be negative.
    (The lower bound is strict here, see [acquire_spec]; the rounding of
    floats can close the gap, so it is stated as it survives rounding.) *)
Theorem acquire_keeps_balance_bounded (l l' : AsyncRateLimiter)
    (readings rest : list Z) :
  reachable l ->
  acquire readings l = Some (l', rest) ->
  (-1 <= tokens l')%Q /\ (tokens l' <= inject_Z (rate_limit l') - 1)%Q.
Proof.
  intros Hr Hacq. apply reachable_within_capacity in Hr.
  apply acquire_spec in Hacq. destruct Hacq as (_ & Hlow & Hcap).
  split; [lra|exact (Hcap Hr)].
Qed.

Lemma acquire_keeps_balance_bounded_witness :
  reachable Samples.drained
  /\ acquire [600000] Samples.drained
     = Some (take_token (refill 600000 Samples.drained), [])
  /\ (-1 <= tokens (take_token (refill 600000 Samples.drained)))%Q
  /\ (tokens (take_token (refill 600000 Samples.drained))
      <= inject_Z (rate_limit (take_token (refill 600000 Samples.drained))) - 1)%Q.
Proof.
  assert (Hr : reachable Samples.drained).
  { apply (drain_reachable 50 (new_limiter 50 0)); [constructor|].
    vm_compute; reflexivity. }
  split; [exact Hr|]. split; [vm_compute; reflexivity|].
  apply (acquire_keeps_balance_bounded Samples.drained _ [600000] []).
  - exact Hr.
  - vm_compute; reflexivity.
Defined.

(** C3 as stated fails: the service's limiter, of capacity fifty, is
    emptied by fifty requests; a request six tenths of a second later
    finds half a token refilled, takes a whole one, and leaves the
    balance at minus one half. *)
Lemma acquire_overdraws_balance :
  reachable Samples.drained
  /\ (tokens Samples.drained == 0)%Q
  /\ acquire [600000] Samples.drained
     = Some (take_token (refill 600000 Samples.drained), [])
  /\ (tokens (take_token (refill 600000 Samples.drained)) == - (1 # 2))%Q
  /\ ~ (0 <= tokens (take_token (refill 600000 Samples.drained)))%Q.
Proof.
  split.
  { apply (drain_reachable 50 (new_limiter 50 0)); [constructor|].
    vm_compute; reflexivity. }
  split; [vm_compute; reflexivity|]. split; [vm_compute; reflexivity|].
  split; [vm_compute; reflexivity|].
  vm_compute. intros H. apply H. reflexivity.
Qed.

(** ** The context and the prompt *)

(** C9.  [update_context] keeps nothing of the previous workspace and
    selection: an omitted workspace leaves the new context without one
    and an omitted selection leaves it empty; the last command and the
    last response are those of the previous context, if there was one;
    the time stamp is the current time; the rest of the service is as it
    was. *)
Theorem update_context_resets_omitted (s : AIService)
    (workspace : option Path) (selection : option (list Path)) (now : Z) :
  (exists c, context (update_context None selection now s) = Some c
             /\ workspace_path c = None)
  /\ (exists c, context (update_context workspace None now s) = Some c
                /\ selected_files c = [])
  /\ (exists c, context (update_context workspace selection now s) = Some c
                /\ workspace_path c = workspace
                /\ selected_files c = default [] selection
                /\ last_command c
                   = match context s with
                     | Some old => last_command old
                     | None => None
                     end
                /\ last_response c
                   = match context s with
                     | Some old => last_response old
                     | None => None
                     end
                /\ timestamp c = now)
  /\ model (update_context workspace selection now s) = model s
  /\ rate_limiter (update_context workspace selection now s) = rate_limiter s
  /\ _is_initialized (update_context workspace selection now s)
     = _is_initialized s
  /\ emitted (update_context workspace selection now s) = emitted s.
Proof.
  split; [eexists; split; reflexivity|].
  split; [eexists; split; reflexivity|].
  split; [|repeat split].
  eexists. split; [reflexivity|]. simpl.
  repeat split. destruct selection as [[|f fs]|]; reflexivity.
Qed.

(** Whenever no context is set, or the context has a workspace, the
    prompt is the one the specification words. *)
Lemma build_system_prompt_specified (s : AIService) :
  (forall c, context s = Some c -> workspace_path c <> None) ->
  _build_system_prompt s = specified_prompt (context s).
Proof.
  unfold _build_system_prompt, specified_prompt. intros Hw.
  destruct (context s) as [[w fs cmd resp t]|]; [|reflexivity].
  specialize (Hw _ eq_refl). simpl in *.
  destruct w as [w|]; [|congruence].
  destruct fs as [|f fs]; destruct cmd as [[|a cmd]|]; reflexivity.
Qed.

(** With a workspace and an empty selection, and no earlier command, the
    prompt is the base instruction and the workspace section. *)
Lemma build_system_prompt_workspace_only (s : AIService) (w : Path) (now : Z) :
  carried last_command (context s) = None ->
  _build_system_prompt (update_context (Some w) (Some []) now s)
  = (base_instruction ++ LF ++ LF ++ "Current workspace: " ++ path_str w)%string.
Proof.
  intros Hc. unfold _build_system_prompt, update_context. simpl.
  rewrite Hc. reflexivity.
Qed.

(** C4, at the input where the code departs from it.  After
    [update_context] with the workspace omitted, whatever the service
    was before, the prompt still carries a workspace section, reading
    [Current workspace: None], right after the base instruction. *)
Theorem build_system_prompt_unset_workspace (s : AIService)
    (selection : option (list Path)) (now : Z) :
  exists rest,
    _build_system_prompt (update_context None selection now s)
    = (base_instruction ++ LF ++ LF ++ "Current workspace: None" ++ rest)%string.
Proof.
  unfold _build_system_prompt, update_context. simpl.
  destruct (or_empty selection) as [|f fs];
    destruct (truthy (carried last_command (context s)));
    simpl; eexists; reflexivity.
Qed.

(** ** The streamed exchange *)

Lemma emit_all_nil (s : AIService) : emit_all [] s = s.
Proof. destruct s. unfold emit_all. simpl. rewrite app_nil_r. reflexivity. Qed.

Lemma emit_all_app (sgs sgs' : list signal) (s : AIService) :
  emit_all sgs' (emit_all sgs s) = emit_all (sgs ++ sgs') s.
Proof. unfold emit_all. simpl. rewrite <- app_assoc. reflexivity. Qed.

Lemma spoken_cons (c : chunk) (cs : list chunk) :
  spoken (c :: cs)
  = if truthy (chunk_content c) then chunk_text c :: spoken cs else spoken cs.
Proof.
  unfold spoken. destruct (truthy (chunk_content c)) eqn:Ht.
  - rewrite filter_cons_True by exact Ht. reflexivity.
  - rewrite filter_cons_False by (rewrite Ht; discriminate). reflexivity.
Qed.

(** The loop over the stream emits the spoken texts in order and
    collects the same texts. *)
Lemma consume_spec (cs : list chunk) :
  forall (full_response : list string) (s : AIService),
    consume cs full_response s
    = (full_response ++ spoken cs, emit_all (response_chunk <$> spoken cs) s).
Proof.
  induction cs as [|c cs IH]; intros acc s; simpl.
  - rewrite app_nil_r. change (spoken []) with (@nil string). simpl.
    rewrite emit_all_nil. reflexivity.
  - rewrite spoken_cons. destruct (truthy (chunk_content c)).
    + rewrite IH. change (emit (response_chunk (default "" (chunk_content c))) s)
        with (emit_all [response_chunk (chunk_text c)] s).
      rewrite emit_all_app, <- app_assoc. reflexivity.
    + apply IH.
Qed.

Lemma concat_empty_cons (x : string) (l : list string) :
  String.concat "" (x :: l) = (x ++ String.concat "" l)%string.
Proof.
  destruct l as [|y l]; simpl; [|reflexivity].
  induction x as [|a x IHx]; [reflexivity|].
  change (String a x = String a (x ++ ""))%string. f_equal. exact IHx.
Qed.

(** Chunks without text add nothing to the joined response. *)
Lemma concat_spoken (cs : list chunk) :
  String.concat "" (spoken cs) = String.concat "" (chunk_text <$> cs).
Proof.
  induction cs as [|c cs IH]; [reflexivity|].
  rewrite spoken_cons, fmap_cons, (concat_empty_cons (chunk_text c)).
  destruct c as [[[|a t]|]]; cbn [chunk_content truthy].
  - exact IH.
  - rewrite concat_empty_cons, IH. reflexivity.
  - exact IH.
Qed.

(** Every [except] clause notifies, then raises. *)
Lemma handle_spec (e0 : exn) (s : AIService) :
  exists e msg, handle e0 s = (Raise e, emit (error_occurred msg) s).
Proof. unfold handle. destruct (exn_cls e0); eauto. Qed.

(** The [try] body on a stream that runs to its end. *)
Lemma try_body_completed (command : string) (x : exchange) (s : AIService)
    (st : stream) :
  endpoint x (request_of command s) = Ok st ->
  failure st = None ->
  emitted (snd (try_body command x s))
  = emitted s ++ [response_started] ++ (response_chunk <$> spoken (chunks st))
    ++ match fst (try_body command x s) with
       | Ok r => [response_complete r]
       | Raise _ => []
       end
  /\ (forall r, fst (try_body command x s) = Ok r ->
      content r = String.concat "" (chunk_text <$> chunks st))
  /\ (context s = None -> exists r, fst (try_body command x s) = Ok r).
Proof.
  intros Hend Hfail. unfold try_body. rewrite Hend, consume_spec, Hfail.
  simpl. destruct (context s) as [c|] eqn:Hctx; simpl; rewrite ?Hctx; simpl.
  - split; [|split].
    + rewrite <- app_assoc. simpl. rewrite app_nil_r. reflexivity.
    + intros r Hr. discriminate.
    + intros Hc. discriminate.
  - split; [|split].
    + rewrite <- !app_assoc. reflexivity.
    + intros r Hr. inversion Hr; subst. simpl. apply concat_spoken.
    + intros _. eexists. reflexivity.
Qed.

(** The [try] body, when it raises, has emitted the start signal and
    chunk signals only. *)
Lemma try_body_raises (command : string) (x : exchange) (s s2 : AIService)
    (e0 : exn) :
  try_body command x s = (Raise e0, s2) ->
  exists texts,
    emitted s2 = emitted s ++ response_started :: (response_chunk <$> texts).
Proof.
  unfold try_body. destruct (endpoint x (request_of command s)) as [st|e].
  - rewrite consume_spec. destruct (failure st) as [e|].
    + intros H. inversion H; subst. exists (spoken (chunks st)). simpl.
      rewrite <- app_assoc. reflexivity.
    + simpl. destruct (context s) as [c|] eqn:Hctx; simpl; rewrite ?Hctx; simpl;
        intros H; inversion H; subst.
      exists (spoken (chunks st)). simpl. rewrite <- app_assoc. reflexivity.
  - intros H. inversion H; subst. exists []. reflexivity.
Qed.

(** C2, as amended.  On a stream that runs to its end, [process_command]
    emits the start signal, then one chunk signal for every chunk that
    has text, in arrival order, then one closing signal.  When it returns
    a response, as it does whenever no context is set, the closing
    signal is the completion signal carrying that response, and the
    response's content is the chunks' texts joined in arrival order. *)
Theorem process_command_streams_in_order (command : string) (x : exchange)
    (s : AIService) (l : AsyncRateLimiter) (rest : list Z) (st : stream) :
  _is_initialized s = true ->
  acquire (readings x) (rate_limiter s) = Some (l, rest) ->
  endpoint x (request_of command s) = Ok st ->
  failure st = None ->
  exists out s' closing,
    process_command command x s = Some (out, s')
    /\ emitted s'
       = emitted s ++ [response_started]
         ++ (response_chunk <$> spoken (chunks st)) ++ [closing]
    /\ match out with
       | Ok r =>
         closing = response_complete r
         /\ content r = String.concat "" (chunk_text <$> chunks st)
       | Raise _ => exists msg, closing = error_occurred msg
       end
    /\ (context s = None -> exists r, out = Ok r).
Proof.
  intros Hinit Hacq Hend Hfail. unfold process_command.
  rewrite Hinit, Hacq. simpl.
  destruct (try_body_completed command x (set_rate_limiter l s) st Hend Hfail)
    as (Htrace & Hcontent & Hsome).
  destruct (try_body command x (set_rate_limiter l s)) as [[r|e0] s2] eqn:Htb;
    simpl in *.
  - exists (Ok r), s2, (response_complete r).
    split; [reflexivity|]. split; [exact Htrace|].
    split; [split; [reflexivity|now apply Hcontent]|]. eauto.
  - destruct (handle_spec e0 s2) as (e & msg & Hh). rewrite Hh.
    exists (Raise e), (emit (error_occurred msg) s2), (error_occurred msg).
    split; [reflexivity|]. split.
    + simpl. rewrite Htrace, app_nil_r, <- !app_assoc. reflexivity.
    + split; [eauto|]. intros Hc. destruct (Hsome Hc) as [r Hr]. discriminate.
Qed.

Lemma process_command_streams_in_order_witness :
  let cs := [Samples.say "Hel"; Samples.say "lo, "; Samples.say "world"] in
  _is_initialized Samples.ai0 = true
  /\ acquire [] (rate_limiter Samples.ai0)
     = Some (take_token (rate_limiter Samples.ai0), [])
  /\ String.concat "" (chunk_text <$> cs) = "Hello, world"
  /\ exists out s' closing,
       process_command "list files" (Samples.streaming cs) Samples.ai0
       = Some (out, s')
       /\ emitted s'
          = emitted Samples.ai0 ++ [response_started]
            ++ (response_chunk <$> spoken cs) ++ [closing]
       /\ match out with
          | Ok r =>
            closing = response_complete r
            /\ content r = String.concat "" (chunk_text <$> cs)
          | Raise _ => exists msg, closing = error_occurred msg
          end
       /\ (context Samples.ai0 = None -> exists r, out = Ok r).
Proof.
  intros cs. split; [reflexivity|]. split; [vm_compute; reflexivity|].
  split; [reflexivity|].
  apply (process_command_streams_in_order "list files" (Samples.streaming cs)
           Samples.ai0 (take_token (rate_limiter Samples.ai0)) []
           {| chunks := cs; failure := None |}).
  - reflexivity.
  - vm_compute; reflexivity.
  - reflexivity.
  - reflexivity.
Defined.

(** C2 as stated fails: of three chunks, the second without text, only
    two are announced by a chunk signal. *)
Lemma process_command_skips_empty_chunk :
  match process_command "list files"
          (Samples.streaming
             [Samples.say "Hel"; Samples.say ""; Samples.say "world"])
          Samples.ai0 with
  | Some (Ok r, s') =>
    emitted s'
    = [response_started; response_chunk "Hel"; response_chunk "world";
       response_complete r]
    /\ emitted s'
       <> [response_started; response_chunk "Hel"; response_chunk "";
           response_chunk "world"; response_complete r]
  | _ => False
  end.
Proof. vm_compute. split; [reflexivity|discriminate]. Qed.

(** Where an exception raised inside the [try] body comes from: the
    request, the stream, or the copy of the context. *)
Lemma try_body_cause (command : string) (x : exchange) (s s2 : AIService)
    (e0 : exn) :
  try_body command x s = (Raise e0, s2) ->
  endpoint x (request_of command s) = Raise e0
  \/ (exists st, endpoint x (request_of command s) = Ok st
                 /\ failure st = Some e0)
  \/ (exists st c, endpoint x (request_of command s) = Ok st
                   /\ failure st = None /\ context s = Some c
                   /\ exn_cls e0 = AttributeError).
Proof.
  unfold try_body. destruct (endpoint x (request_of command s)) as [st|e].
  - rewrite consume_spec. destruct (failure st) as [e|] eqn:Hf.
    + intros H. inversion H; subst. right. left. eauto.
    + simpl. destruct (context s) as [c|] eqn:Hctx; simpl; rewrite ?Hctx; simpl;
        intros H; inversion H; subst.
      right. right. exists st, c. auto.
  - intros H. inversion H; subst. left. reflexivity.
Qed.

(** Whenever an initialised service fails a command, the failure
    is an exception [e0] raised by the request, by the stream or inside
    the processing; the last signal emitted before the exception leaves
    is an error signal, after the start signal and chunk signals only,
    so that no response is published or returned.  A timeout leaves as a
    [ConnectionError], a rate limit rejection leaves unchanged, another
    API error leaves wrapped in a [ConnectionError], and anything else
    leaves unchanged. *)
Theorem process_command_failure_notified (command : string) (x : exchange)
    (s s' : AIService) (e : exn) :
  _is_initialized s = true ->
  process_command command x s = Some (Raise e, s') ->
  exists e0 texts msg,
    emitted s'
    = emitted s ++ response_started :: (response_chunk <$> texts)
      ++ [error_occurred msg]
    /\ (endpoint x (request_of command s) = Raise e0
        \/ (exists st, endpoint x (request_of command s) = Ok st
                       /\ failure st = Some e0)
        \/ (exists st c, endpoint x (request_of command s) = Ok st
                         /\ failure st = None /\ context s = Some c
                         /\ exn_cls e0 = AttributeError))
    /\ match exn_cls e0 with
       | APITimeoutError =>
         e = Exn ConnectionError "AI request timed out"
         /\ msg = "AI request timed out"
       | RateLimitError =>
         e = e0 /\ msg = "AI rate limit exceeded"
       | APIConnectionError | APIStatusError =>
         e = Exn ConnectionError ("AI API error: " ++ exn_msg e0)
         /\ msg = ("AI API error: " ++ exn_msg e0)%string
       | _ =>
         e = e0
         /\ msg = ("Unexpected error in AI processing: " ++ exn_msg e0)%string
       end.
Proof.
  intros Hinit H. unfold process_command in H. rewrite Hinit in H. simpl in H.
  destruct (acquire (readings x) (rate_limiter s)) as [[l rest]|]; [|discriminate].
  destruct (try_body command x (set_rate_limiter l s)) as [[r|e0] s2] eqn:Htb;
    [discriminate|].
  destruct (try_body_raises _ _ _ _ _ Htb) as [texts Htrace].
  pose proof (try_body_cause _ _ _ _ _ Htb) as Hcause.
  change (request_of command (set_rate_limiter l s))
    with (request_of command s) in Hcause.
  change (context (set_rate_limiter l s)) with (context s) in Hcause.
  assert (Hem : forall msg,
    emitted (emit (error_occurred msg) s2)
    = emitted s ++ response_started :: (response_chunk <$> texts)
      ++ [error_occurred msg]).
  { intros msg. simpl. rewrite Htrace. simpl. rewrite <- app_assoc.
    reflexivity. }
  exists e0, texts. unfold handle in H.
  destruct (exn_cls e0); injection H as He Hs; subst e s'; eexists;
    (split; [apply Hem|]); (split; [exact Hcause|]); split; reflexivity.
Qed.

Lemma process_command_failure_notified_witness :
  _is_initialized Samples.ai0 = true
  /\ process_command "list files" Samples.timing_out Samples.ai0
     = Some (Raise (Exn ConnectionError "AI request timed out"),
             Samples.ai_timed_out)
  /\ exists e0 texts msg,
       emitted Samples.ai_timed_out
       = emitted Samples.ai0 ++ response_started :: (response_chunk <$> texts)
         ++ [error_occurred msg]
       /\ (endpoint Samples.timing_out (request_of "list files" Samples.ai0)
           = Raise e0
           \/ (exists st,
                 endpoint Samples.timing_out (request_of "list files" Samples.ai0)
                 = Ok st /\ failure st = Some e0)
           \/ (exists st c,
                 endpoint Samples.timing_out (request_of "list files" Samples.ai0)
                 = Ok st
                 /\ failure st = None /\ context Samples.ai0 = Some c
                 /\ exn_cls e0 = AttributeError))
       /\ match exn_cls e0 with
          | APITimeoutError =>
            Exn ConnectionError "AI request timed out"
            = Exn ConnectionError "AI request timed out"
            /\ msg = "AI request timed out"
          | RateLimitError =>
            Exn ConnectionError "AI request timed out" = e0
            /\ msg = "AI rate limit exceeded"
          | APIConnectionError | APIStatusError =>
            Exn ConnectionError "AI request timed out"
            = Exn ConnectionError ("AI API error: " ++ exn_msg e0)
            /\ msg = ("AI API error: " ++ exn_msg e0)%string
          | _ =>
            Exn ConnectionError "AI request timed out" = e0
            /\ msg = ("Unexpected error in AI processing: " ++ exn_msg e0)%string
          end.
Proof.
  split; [reflexivity|]. split; [vm_compute; reflexivity|].
  apply (process_command_failure_notified "list files" Samples.timing_out
           Samples.ai0 Samples.ai_timed_out
           (Exn ConnectionError "AI request timed out")).
  - reflexivity.
  - vm_compute; reflexivity.
Defined.

(** C6, at the input where the code departs from it.  With a context
    set, a command whose stream runs to its end fails: the copy of the
    context raises [AttributeError], which is notified as an unexpected
    error and raised unchanged, and no response is returned.  The chunks
    of that failed command are not discarded: joined, they have been
    stored in the context as its last response, with the command as its
    last command, and stay there. *)
Lemma process_command_failure_keeps_response :
  let x := Samples.streaming Scenarios.two_chunks in
  let s := Scenarios.ai_with_context in
  exists s' c',
    process_command "list files" x s
    = Some (Raise (Exn AttributeError
                     "'AIContext' object has no attribute 'copy'"), s')
    /\ emitted s'
       = [response_started; response_chunk "Hel"; response_chunk "lo";
          error_occurred
            "Unexpected error in AI processing: 'AIContext' object has no attribute 'copy'"]
    /\ (context s ≫= last_response) = None
    /\ context s' = Some c'
    /\ last_response c' = Some "Hello"
    /\ last_command c' = Some "list files".
Proof.
  intros x s. eexists. eexists.
  split; [vm_compute; reflexivity|]. split; [reflexivity|].
  split; [reflexivity|]. split; [reflexivity|]. split; reflexivity.
Qed.

End AIProofs.

(** * The codec on small inputs *)

Example utf8_decode_ascii :
  Utf8.decode Utf8.Strict [x48; x69]%byte = Some [72; 105]%N.
Proof. reflexivity. Qed.

Example utf8_decode_euro :
  Utf8.decode Utf8.Strict [xe2; x82; xac]%byte = Some [0x20AC]%N.
Proof. reflexivity. Qed.

Example utf8_decode_truncated :
  Utf8.decode Utf8.Replace [x61; xe2; x82]%byte = Some [97; 0xFFFD]%N.
Proof. reflexivity. Qed.

Example utf8_decode_bad_strict :
  Utf8.decode Utf8.Strict [xff; x61]%byte = None.
Proof. reflexivity. Qed.

Example utf8_decode_bad_ignore :
  Utf8.decode Utf8.Ignore [xff; x61]%byte = Some [97]%N.
Proof. reflexivity. Qed.

Example utf8_encode_euro :
  Utf8.encode [0x20AC; 10]%N = Some [xe2; x82; xac; x0a]%byte.
Proof. reflexivity. Qed.

Example universal_newlines_crlf :
  Utf8.universal_newlines [97; 13; 10; 98; 13; 99]%N = [97; 10; 98; 10; 99]%N.
Proof. reflexivity. Qed.

(** * The codec: encoding then decoding *)
Module Utf8Proofs.

Import Utf8 Utf8Check.
Local Open Scope N_scope.

Lemma all_from_spec (f : N -> bool) (fuel : nat) :
  forall cp, all_from fuel cp f = true ->
  forall k, cp <= k -> k < cp + N.of_nat fuel -> f k = true.
Proof.
  induction fuel as [|fuel IH]; intros cp H k Hlo Hhi.
  - simpl in Hhi. lia.
  - simpl in H. apply andb_true_iff in H. destruct H as [Hcp Hrest].
    destruct (N.eq_dec k cp) as [->|Hne]; [exact Hcp|].
    apply (IH (N.succ cp) Hrest); lia.
Qed.

(** Checked on every code point, one by one. *)
Lemma reads_back_all : all_from (N.to_nat 0x110000) 0 reads_back = true.
Proof. vm_cast_no_check (eq_refl true). Qed.

Lemma encode_char_range (cp : N) (bs : list byte) :
  encode_char cp = Some bs -> cp < 0x110000.
Proof.
  unfold encode_char.
  destruct (cp <? 0x80) eqn:H1; [apply N.ltb_lt in H1; lia|].
  destruct (cp <? 0x800) eqn:H2; [apply N.ltb_lt in H2; lia|].
  destruct ((0xD800 <=? cp) && (cp <? 0xE000)); [discriminate|].
  destruct (cp <? 0x10000) eqn:H4; [apply N.ltb_lt in H4; lia|].
  destruct (cp <? 0x110000) eqn:H5; [apply N.ltb_lt in H5; lia|discriminate].
Qed.

Lemma next_encode_char (cp : N) (bs : list byte) :
  encode_char cp = Some bs ->
  next (Byte.to_N <$> bs) = Char cp (length bs).
Proof.
  intros He. pose proof (encode_char_range cp bs He) as Hr.
  pose proof (all_from_spec reads_back _ 0 reads_back_all cp) as Hall.
  assert (Hrb : reads_back cp = true).
  { apply Hall; [lia|]. rewrite N2Nat.id. lia. }
  unfold reads_back in Hrb. rewrite He in Hrb.
  destruct (next (Byte.to_N <$> bs)) as [cp' used| |]; try discriminate.
  apply andb_true_iff in Hrb. destruct Hrb as [H1 H2].
  apply N.eqb_eq in H1. apply Nat.eqb_eq in H2. congruence.
Qed.

(** A well-formed sequence is read the same whatever follows it. *)
Lemma next_app (bs rest : list N) (cp : N) (used : nat) :
  next bs = Char cp used -> next (bs ++ rest) = Char cp used.
Proof.
  unfold next.
  destruct bs as [|a [|b [|c [|d t]]]]; simpl; intros H;
    repeat match type of H with
           | context [if ?c then _ else _] => destruct c
           end;
    try discriminate; exact H.
Qed.

Lemma next_used_positive (bs : list N) (cp : N) (used : nat) :
  next bs = Char cp used -> (0 < used)%nat.
Proof.
  unfold next.
  destruct bs as [|a [|b [|c [|d t]]]]; simpl; intros H;
    repeat match type of H with
           | context [if ?c then _ else _] => destruct c
           end;
    try discriminate; inversion H; lia.
Qed.

(** Decoding strictly what [encode] made gives the text back. *)
Lemma decode_loop_encode (s : text) :
  forall (bs : list byte) (fuel : nat),
    encode s = Some bs ->
    (length bs <= fuel)%nat ->
    decode_loop fuel Strict (Byte.to_N <$> bs) = Some s.
Proof.
  induction s as [|cp s IH]; intros bs fuel He Hf; simpl in He.
  - inversion He; subst. destruct fuel; reflexivity.
  - destruct (encode_char cp) as [b|] eqn:Hc; [|discriminate]. simpl in He.
    destruct (encode s) as [bs'|] eqn:Hs; [|discriminate]. simpl in He.
    inversion He; subst bs. clear He.
    pose proof (next_encode_char cp b Hc) as Hn.
    pose proof (next_used_positive _ _ _ Hn) as Hpos.
    rewrite length_app in Hf.
    destruct fuel as [|fuel]; [lia|].
    rewrite fmap_app. simpl.
    destruct ((Byte.to_N <$> b) ++ (Byte.to_N <$> bs')) as [|x xs] eqn:Hl.
    { apply app_eq_nil in Hl. destruct Hl as [Hb _].
      apply fmap_nil_inv in Hb. subst b. simpl in Hpos. lia. }
    rewrite <- Hl. rewrite (next_app _ _ _ _ Hn).
    replace (drop (length b) ((Byte.to_N <$> b) ++ (Byte.to_N <$> bs')))
      with (Byte.to_N <$> bs').
    + rewrite (IH bs' fuel eq_refl) by lia. reflexivity.
    + rewrite drop_app_length'; [reflexivity|]. now rewrite length_fmap.
Qed.

Lemma decode_encode (s : text) (bs : list byte) :
  encode s = Some bs -> decode Strict bs = Some s.
Proof. intros He. unfold decode. now apply decode_loop_encode. Qed.

End Utf8Proofs.

(** * More on the file system service *)
Module FileSystemFacts.

Import FileSystem FileSystemProofs.
Local Open Scope fs_scope.

Lemma universal_newlines_no_cr (s : Utf8.text) :
  Forall (fun c => c <> 13%N) s -> Utf8.universal_newlines s = s.
Proof.
  induction 1 as [|c s Hc _ IH]; simpl; [reflexivity|].
  destruct (N.eqb_spec c 13) as [->|_]; [congruence|]. now rewrite IH.
Qed.

(** What [delete_file] does, by what the disk holds at the path. *)
Lemma delete_file_cases (w : world) (p : Path) :
  delete_file p w
  = match disk (os w) !! p with
    | None =>
      (Raise (Exn FileNotFoundError ("File not found: " ++ path_str p)), w)
    | Some (File _ _) =>
      (Ok tt,
       set_self (set_cache (delete p (metadata_cache (self w))) (self w))
         (set_disk
            (touch_dir (parent p) (clock (os w)) (delete p (disk (os w)))) w))
    | Some (Dir _ _) =>
      (Raise (EISDIR p),
       set_self (emit (error_occurred (exn_msg (EISDIR p))) (self w)) w)
    end.
Proof.
  unfold delete_file, unlink.
  destruct (disk (os w) !! p) as [[data mt|sz mt]|] eqn:Hd; run_with Hd;
    reflexivity.
Qed.

(** Stamping a directory changes no other entry, no file, and leaves a
    directory where there was one. *)
Lemma touch_dir_ne (p q : Path) (now : Z) (d : gmap Path node) :
  q <> p -> touch_dir p now d !! q = d !! q.
Proof.
  intros Hne. unfold touch_dir.
  destruct (d !! p) as [[data mt|sz mt]|]; try reflexivity.
  apply lookup_insert_ne. congruence.
Qed.

Lemma touch_dir_file (p q : Path) (now : Z) (d : gmap Path node)
    (data : list byte) (mtime : Z) :
  d !! q = Some (File data mtime) ->
  touch_dir p now d !! q = Some (File data mtime).
Proof.
  intros Hq. destruct (decide (q = p)) as [->|Hne].
  - unfold touch_dir. rewrite Hq. exact Hq.
  - rewrite touch_dir_ne by exact Hne. exact Hq.
Qed.

Lemma touch_dir_dir (p q : Path) (now : Z) (d : gmap Path node)
    (dsize mtime : Z) :
  d !! q = Some (Dir dsize mtime) ->
  exists mtime', touch_dir p now d !! q = Some (Dir dsize mtime').
Proof.
  intros Hq. destruct (decide (q = p)) as [->|Hne].
  - unfold touch_dir. rewrite Hq. exists now. apply lookup_insert_eq.
  - exists mtime. rewrite touch_dir_ne by exact Hne. exact Hq.
Qed.

Lemma touch_dir_none (p q : Path) (now : Z) (d : gmap Path node) :
  d !! q = None -> touch_dir p now d !! q = None.
Proof.
  intros Hq. destruct (decide (q = p)) as [->|Hne].
  - unfold touch_dir. rewrite Hq. exact Hq.
  - rewrite touch_dir_ne by exact Hne. exact Hq.
Qed.

Lemma parent_prefix (p : Path) : parent p `prefix_of` p.
Proof.
  unfold parent. destruct p as [|c p]; [exists []; reflexivity|].
  exists [List.last (c :: p) c].
  apply app_removelast_last. discriminate.
Qed.

Lemma disk_frame_refl (p : Path) (d : gmap Path node) : disk_frame p d d.
Proof. split; [reflexivity|]. split; eauto. Qed.

Lemma disk_frame_trans (p : Path) (d1 d2 d3 : gmap Path node) :
  disk_frame p d1 d2 -> disk_frame p d2 d3 -> disk_frame p d1 d3.
Proof.
  intros (Ho1 & Hf1 & Hd1) (Ho2 & Hf2 & Hd2). split; [|split].
  - intros q Hq. rewrite Ho2, Ho1 by exact Hq. reflexivity.
  - intros q data mt Hq Hl. apply Hf2; [exact Hq|]. now apply Hf1.
  - intros q sz mt Hl. destruct (Hd1 q sz mt Hl) as (sz' & mt' & Hl').
    exact (Hd2 q sz' mt' Hl').
Qed.

Lemma disk_frame_touch (p q0 : Path) (now : Z) (d : gmap Path node) :
  q0 `prefix_of` p -> disk_frame p d (touch_dir q0 now d).
Proof.
  intros Hpre. split; [|split].
  - intros q Hq. apply touch_dir_ne. intros ->. exact (Hq Hpre).
  - intros q data mt _ Hl. now apply touch_dir_file.
  - intros q sz mt Hl. exists sz. exact (touch_dir_dir q0 q now d sz mt Hl).
Qed.

(** Writing a file at [p], where there is no directory. *)
Lemma disk_frame_insert_file (p : Path) (d : gmap Path node)
    (data : list byte) (mtime : Z) :
  (forall dsize' mtime', d !! p <> Some (Dir dsize' mtime')) ->
  disk_frame p d (<[p := File data mtime]> d).
Proof.
  intros Hp. split; [|split].
  - intros q Hq. apply lookup_insert_ne. intros <-. now apply Hq.
  - intros q data' mt Hq Hl. rewrite lookup_insert_ne by congruence. exact Hl.
  - intros q sz mt Hl. exists sz, mt.
    rewrite lookup_insert_ne; [exact Hl|]. intros <-. exact (Hp sz mt Hl).
Qed.

Lemma read_file_strict (w : world) (p : Path) (data : list byte) (mtime : Z)
    (s : Utf8.text) :
  disk (os w) !! p = Some (File data mtime) ->
  Utf8.decode Utf8.Strict data = Some s ->
  read_file p w = (Ok (Utf8.universal_newlines s), w).
Proof.
  intros Hd Hs. unfold read_file. run_with Hd. rewrite Hs. reflexivity.
Qed.

Section Service.

Variable magic_from_file : node -> string.

Local Abbreviation get_metadata := (get_metadata magic_from_file).


(** Text written through the service reads back as it was written, up
    to the universal newlines of reading: unchanged if it holds no
    carriage return. *)
Theorem write_file_read_file_round_trip (w w' : world) (p : Path)
    (content : Utf8.text) (create_dirs : bool) :
  write_file p content create_dirs w = (Ok tt, w') ->
  read_file p w' = (Ok (Utf8.universal_newlines content), w')
  /\ (Forall (fun c => c <> 13%N) content -> read_file p w' = (Ok content, w')).
Proof.
  intros H. apply write_file_ok in H. destruct H as (data & Henc & Hd & _).
  apply Utf8Proofs.decode_encode in Henc.
  pose proof (read_file_strict w' p data _ content Hd Henc) as Hr.
  split; [exact Hr|]. intros Hcr. rewrite Hr.
  now rewrite universal_newlines_no_cr.
Qed.


(** After [clear_metadata_cache], a lookup looks at the disk again: for a
    file it reports the size, the time and the sniffed type that the disk
    holds at that time; for a directory it raises the
    [IsADirectoryError] of the sniffer; for a missing path it raises
    [FileNotFoundError]. *)
Theorem clear_metadata_cache_restats (w : world) (p : Path) :
  fst (get_metadata p (snd (clear_metadata_cache w)))
  = match disk (os w) !! p with
    | Some (File data mtime) =>
      Ok {| path := p;
            size := Z.of_nat (length data);
            modified_time := mtime;
            mime_type := magic_from_file (File data mtime);
            is_hidden := startswith_dot (name p) |}
    | Some (Dir _ _) => Raise (EISDIR p)
    | None => Raise (Exn FileNotFoundError ("File not found: " ++ path_str p))
    end.
Proof.
  unfold clear_metadata_cache, modify. simpl.
  assert (Hc : forall s : FileSystemService,
             metadata_cache (set_cache ∅ s) !! p = None)
    by (intros s; apply lookup_empty).
  destruct (disk (os w) !! p) as [[data mt|sz mt]|] eqn:Hd.
  - rewrite (get_metadata_miss magic_from_file _ p data mt);
      [reflexivity|apply Hc|exact Hd].
  - rewrite (get_metadata_dir magic_from_file _ p sz mt);
      [reflexivity|apply Hc|exact Hd].
  - rewrite (get_metadata_none magic_from_file _ p);
      [reflexivity|apply Hc|exact Hd].
Qed.

(** A completed [delete_file] removes the path from the disk and from the
    cache.  Of the rest of the disk, every entry but the directory the
    file was in is as it was, no other file has changed, and a directory
    is still a directory (the operating system stamps the one the file
    was in); looking the path up or reading it afterwards raises
    [FileNotFoundError]. *)
Theorem delete_file_removes (w w' : world) (p : Path) :
  delete_file p w = (Ok tt, w') ->
  disk (os w') !! p = None
  /\ metadata_cache (self w') !! p = None
  /\ (forall q, q <> p -> q <> parent p -> disk (os w') !! q = disk (os w) !! q)
  /\ (forall q data mtime, q <> p ->
        disk (os w) !! q = Some (File data mtime) ->
        disk (os w') !! q = Some (File data mtime))
  /\ (forall q dsize mtime,
        disk (os w) !! q = Some (Dir dsize mtime) ->
        exists dsize' mtime', disk (os w') !! q = Some (Dir dsize' mtime'))
  /\ fst (get_metadata p w')
     = Raise (Exn FileNotFoundError ("File not found: " ++ path_str p))
  /\ fst (read_file p w')
     = Raise (Exn FileNotFoundError ("File not found: " ++ path_str p)).
Proof.
  rewrite delete_file_cases.
  destruct (disk (os w) !! p) as [[data mt|sz mt]|] eqn:Hd; intros H;
    inversion H; subst; clear H. simpl.
  assert (Hgone : touch_dir (parent p) (clock (os w)) (delete p (disk (os w))) !! p
                  = None) by (apply touch_dir_none, lookup_delete_eq).
  assert (Hc : delete p (metadata_cache (self w)) !! p = None)
    by apply lookup_delete_eq.
  split; [exact Hgone|]. split; [exact Hc|].
  split; [intros q Hq Hpar; rewrite touch_dir_ne by exact Hpar;
          now apply lookup_delete_ne|].
  split; [intros q data' mt' Hq Hl; apply touch_dir_file;
          rewrite lookup_delete_ne by congruence; exact Hl|].
  split; [|split].
  - intros q sz' mt' Hl. exists sz'.
    apply (touch_dir_dir (parent p) q (clock (os w)) _ sz' mt').
    rewrite lookup_delete_ne; [exact Hl|]. intros <-.
    discriminate (eq_trans (eq_sym Hl) Hd).
  - unfold FileSystem.get_metadata. unfold_ops. simpl. rewrite Hc. simpl.
    rewrite Hgone. reflexivity.
  - unfold read_file. unfold_ops. simpl. rewrite Hgone. reflexivity.
Qed.

End Service.

(** [delete_file] on a directory raises what [unlink] raises, after
    emitting the error signal with that message; nothing is removed from
    the disk or from the cache. *)
Theorem delete_file_directory (w : world) (p : Path) (dsize mtime : Z) :
  disk (os w) !! p = Some (Dir dsize mtime) ->
  exists w',
    delete_file p w = (Raise (EISDIR p), w')
    /\ os w' = os w
    /\ metadata_cache (self w') = metadata_cache (self w)
    /\ emitted (self w') = emitted (self w) ++ [error_occurred (exn_msg (EISDIR p))].
Proof.
  intros Hd. rewrite delete_file_cases, Hd. eexists. split; [reflexivity|].
  repeat split.
Qed.

(** For a path that is not on disk, [read_file] and [delete_file] raise
    [FileNotFoundError] and change nothing. *)
Theorem missing_path_not_found (w : world) (p : Path) :
  disk (os w) !! p = None ->
  read_file p w
  = (Raise (Exn FileNotFoundError ("File not found: " ++ path_str p)), w)
  /\ delete_file p w
     = (Raise (Exn FileNotFoundError ("File not found: " ++ path_str p)), w).
Proof.
  intros Hd. split.
  - unfold read_file. run_with Hd. reflexivity.
  - rewrite delete_file_cases, Hd. reflexivity.
Qed.

(** ** Reading in chunks *)




(** A service made with a chunk size of zero reads no chunk at all, of
    any file. *)
Theorem read_binary_zero_chunk_size (w : world) (p : Path) (data : list byte)
    (mtime : Z) (fuel : nat) :
  disk (os w) !! p = Some (File data mtime) ->
  chunk_size (self w) = 0 ->
  Streams.collect_chunks (S fuel) (Created p) w = Some (Ok []).
Proof.
  intros Hd Hz. simpl. rewrite Hd. unfold next_chunk, read_n. rewrite Hz.
  reflexivity.
Qed.

(** A service made with a chunk size below [-1] reads nothing: the first
    request for a chunk raises the [ValueError] of the read, and the
    generator is finished. *)
Theorem read_binary_refused_chunk_size (w : world) (p : Path)
    (data : list byte) (mtime : Z) (fuel : nat) :
  disk (os w) !! p = Some (File data mtime) ->
  chunk_size (self w) < -1 ->
  anext (Created p) w
  = (Raise (Exn ValueError "read length must be non-negative or -1"), Closed, w)
  /\ Streams.collect_chunks (S fuel) (Created p) w
     = Some (Raise (Exn ValueError "read length must be non-negative or -1")).
Proof.
  intros Hd Hlow.
  assert (Hn : anext (Created p) w
               = (Raise (Exn ValueError "read length must be non-negative or -1"),
                  Closed, w)).
  { simpl. rewrite Hd. unfold next_chunk, read_n.
    apply Z.ltb_lt in Hlow. rewrite Hlow. reflexivity. }
  split; [exact Hn|].
  change (Streams.collect_chunks (S fuel) (Created p) w)
    with (match anext (Created p) w with
          | (Ok (Some chunk), g', w') =>
            match Streams.collect_chunks fuel g' w' with
            | Some (Ok chunks) => Some (Ok (chunk :: chunks))
            | r => r
            end
          | (Ok None, _, _) => Some (Ok [])
          | (Raise e, _, _) => Some (Raise e)
          end).
  rewrite Hn. reflexivity.
Qed.

(** ** Writing *)

(** Making directories changes the disk only on the way from the root to
    the last of them; it leaves every file as it was, and a directory
    where there was one. *)
Lemma mkdir_from_disk (todo done : Path) (w w1 : world) (o : outcome unit) :
  mkdir_from done todo w = (o, w1) ->
  (forall q, ~ q `prefix_of` (done ++ todo) ->
             disk (os w1) !! q = disk (os w) !! q)
  /\ (forall q data mtime,
        disk (os w) !! q = Some (File data mtime) ->
        disk (os w1) !! q = Some (File data mtime))
  /\ (forall q dsize mtime,
        disk (os w) !! q = Some (Dir dsize mtime) ->
        exists mtime', disk (os w1) !! q = Some (Dir dsize mtime')).
Proof.
  revert done w. induction todo as [|c todo IH]; intros done w H; simpl in H.
  - inversion H; subst. split; [reflexivity|]. split; eauto.
  - destruct (disk (os w) !! (done ++ [c])) as [[data mt|sz mt]|] eqn:E.
    + inversion H; subst. split; [reflexivity|]. split; eauto.
    + apply IH in H. rewrite <- app_assoc in H. exact H.
    + apply IH in H. rewrite <- app_assoc in H. simpl in H.
      destruct H as (Hout & Hfile & Hdir). split; [|split].
      * intros q Hq. rewrite Hout by exact Hq.
        rewrite touch_dir_ne, lookup_insert_ne; [reflexivity| |].
        -- intros <-. apply Hq. exists todo. rewrite <- app_assoc. reflexivity.
        -- intros ->. apply Hq. exists (c :: todo). reflexivity.
      * intros q data mt Hq. apply Hfile. apply touch_dir_file.
        rewrite lookup_insert_ne; [exact Hq|]. intros <-.
        discriminate (eq_trans (eq_sym Hq) E).
      * intros q sz mt Hq.
        destruct (touch_dir_dir done q (clock (os w))
                    (<[done ++ [c] := Dir fresh_dir_size (clock (os w))]>
                       (disk (os w))) sz mt) as [mt1 H1].
        { rewrite lookup_insert_ne; [exact Hq|]. intros <-.
          discriminate (eq_trans (eq_sym Hq) E). }
        exact (Hdir q sz mt1 H1).
Qed.

Lemma mkdir_parents_frame (p : Path) (w w1 : world) (o : outcome unit) :
  mkdir_parents (parent p) w = (o, w1) ->
  disk_frame p (disk (os w)) (disk (os w1)).
Proof.
  unfold mkdir_parents. intros H. apply mkdir_from_disk in H. simpl in H.
  destruct H as (Hout & Hfile & Hdir). split; [|split].
  - intros q Hq. apply Hout. intros Hpre. apply Hq.
    etransitivity; [exact Hpre|apply parent_prefix].
  - intros q data mt _ Hl. now apply Hfile.
  - intros q sz mt Hl. destruct (Hdir q sz mt Hl) as [mt' Hl']. eauto.
Qed.

Lemma open_w_frame (p : Path) (w w1 : world) (o : outcome unit) :
  open_w p w = (o, w1) ->
  disk_frame p (disk (os w)) (disk (os w1)).
Proof.
  unfold open_w. intros H.
  destruct (disk (os w) !! p) as [[data mt|sz mt]|] eqn:Hp;
    destruct (disk (os w) !! parent p) as [[data' mt'|sz' mt']|] eqn:Hpar;
    inversion H; subst; clear H; simpl; try apply disk_frame_refl.
  - apply disk_frame_insert_file. intros sz mt1 Heq.
    discriminate (eq_trans (eq_sym Heq) Hp).
  - eapply disk_frame_trans; [apply disk_frame_touch, parent_prefix|].
    apply disk_frame_insert_file. intros sz mt1 Heq.
    rewrite (touch_dir_none (parent p) p _ _ Hp) in Heq. discriminate.
Qed.

(** When it completes, every component it was given is a directory. *)
Lemma mkdir_from_ok (todo done : Path) (w w1 : world) :
  mkdir_from done todo w = (Ok tt, w1) ->
  forall k, (0 < k <= length todo)%nat ->
    exists dsize mtime,
      disk (os w1) !! (done ++ take k todo) = Some (Dir dsize mtime).
Proof.
  revert done w. induction todo as [|c todo IH]; intros done w H k Hk;
    simpl in H, Hk; [lia|].
  assert (Hstep : forall w0 dsize mtime,
    mkdir_from (done ++ [c]) todo w0 = (Ok tt, w1) ->
    disk (os w0) !! (done ++ [c]) = Some (Dir dsize mtime) ->
    exists dsize' mtime',
      disk (os w1) !! (done ++ take k (c :: todo)) = Some (Dir dsize' mtime')).
  { intros w0 dsize mtime Hrec Hq. destruct k as [|k]; [lia|]. simpl.
    destruct k as [|k].
    - rewrite take_0.
      destruct (mkdir_from_disk _ _ _ _ _ Hrec) as (_ & _ & Hdir).
      destruct (Hdir _ _ _ Hq) as [mtime' Hq']. eauto.
    - replace (done ++ c :: take (S k) todo)
        with ((done ++ [c]) ++ take (S k) todo)
        by (rewrite <- app_assoc; reflexivity).
      eapply IH; [exact Hrec|lia]. }
  destruct (disk (os w) !! (done ++ [c])) as [[data mt|sz mt]|] eqn:E.
  - discriminate.
  - eapply Hstep; eassumption.
  - destruct (touch_dir_dir done (done ++ [c]) (clock (os w))
                (<[done ++ [c] := Dir fresh_dir_size (clock (os w))]>
                   (disk (os w))) fresh_dir_size (clock (os w))
                (lookup_insert_eq _ _ _)) as [mt' H'].
    eapply Hstep; [exact H|exact H'].
Qed.

Lemma removelast_take {A} (l : list A) :
  removelast l = take (length l - 1) l.
Proof.
  induction l as [|a l IH]; [reflexivity|].
  destruct l as [|b l]; [reflexivity|].
  change (removelast (a :: b :: l)) with (a :: removelast (b :: l)).
  rewrite IH. simpl. rewrite Nat.sub_0_r. reflexivity.
Qed.

(** A completed [write_file] that was asked to create the parent
    directories leaves a directory at every proper prefix of the path,
    the root apart. *)
Theorem write_file_creates_parents (w w' : world) (p : Path)
    (content : Utf8.text) (k : nat) :
  write_file p content true w = (Ok tt, w') ->
  (0 < k < length p)%nat ->
  exists dsize mtime, disk (os w') !! take k p = Some (Dir dsize mtime).
Proof.
  unfold write_file, bind, when, mkdir_parents. intros H Hk.
  destruct (mkdir_from [] (parent p) w) as [[[]|e] w1] eqn:Hmk; [|discriminate].
  destruct (open_w p w1) as [[[]|e] w2] eqn:Hop; [|discriminate].
  apply open_w_ok in Hop. destruct Hop as (d & -> & Hd).
  assert (Hpar : exists dsize mtime,
             disk (os w1) !! take k p = Some (Dir dsize mtime)).
  { destruct (mkdir_from_ok _ _ _ _ Hmk k) as (sz & mt & Hq).
    - unfold parent. rewrite removelast_take, length_take. lia.
    - exists sz, mt. simpl in Hq. unfold parent in Hq.
      rewrite removelast_take, take_take in Hq.
      replace (k `min` (length p - 1))%nat with k in Hq by lia. exact Hq. }
  destruct Hpar as (sz & mt & Hq).
  assert (Hne : take k p <> p).
  { intros Heq. apply (f_equal length) in Heq. rewrite length_take in Heq. lia. }
  destruct (Utf8.encode content) as [data|]; [|discriminate].
  unfold flush_w, cache_pop, modify in H. simpl in H. inversion H; subst w'.
  simpl. rewrite !lookup_insert_ne by congruence.
  destruct Hd as [-> | ->]; [eauto|].
  destruct (touch_dir_dir (parent p) (take k p) (clock (os w1)) _ sz mt Hq)
    as [mt' Hq'].
  eauto.
Qed.

(** When the content cannot be encoded (it holds a surrogate), the file
    has already been emptied by the time [write_file] raises, and the
    cache is left as it was: a cached entry for the path survives the
    failed write and is what the next lookup returns. *)
Theorem write_file_unencodable (w : world) (p : Path) (content : Utf8.text)
    (dsize mtime : Z) :
  disk (os w) !! parent p = Some (Dir dsize mtime) ->
  (forall dsize' mtime', disk (os w) !! p <> Some (Dir dsize' mtime')) ->
  Utf8.encode content = None ->
  exists w',
    write_file p content false w = (Raise encode_error, w')
    /\ disk (os w') !! p = Some (File [] (clock (os w)))
    /\ self w' = self w.
Proof.
  intros Hpar Hp Henc. unfold write_file, when, open_w. unfold_ops.
  simpl. rewrite Hpar, Henc.
  destruct (disk (os w) !! p) as [[? ?|sz mt]|] eqn:Hd; simpl.
  - eexists. split; [reflexivity|]. split; [apply lookup_insert_eq|reflexivity].
  - exfalso. exact (Hp sz mt eq_refl).
  - eexists. split; [reflexivity|]. split; [apply lookup_insert_eq|reflexivity].
Qed.

(** ** Watching *)

(** A call of [start_monitoring] that raises registers nothing, and
    leaves the disk alone; it emits the error signal exactly when the
    path is a directory, in which case the operating system has refused
    the watch. *)
Theorem start_monitoring_failure (w : world) (p : Path) (err : exn) :
  fst (start_monitoring p w) = Raise err ->
  let w' := snd (start_monitoring p w) in
  os w' = os w
  /\ observer_watches (self w') = observer_watches (self w)
  /\ monitored_paths (self w') = monitored_paths (self w)
  /\ emitted (self w')
     = match disk (os w) !! p with
       | Some (Dir _ _) => emitted (self w) ++ [error_occurred (exn_msg err)]
       | _ => emitted (self w)
       end
  /\ match disk (os w) !! p with
     | Some (Dir _ _) => watch_refusal (os w) p = Some err
     | Some (File _ _) => exn_cls err = NotADirectoryError
     | None => exn_cls err = FileNotFoundError
     end.
Proof.
  unfold start_monitoring.
  destruct (disk (os w) !! p) as [[data mt|sz mt]|] eqn:Hd; run_with Hd.
  - intros H. inversion H; subst. repeat split.
  - destruct (bool_decide (p ∉ monitored_paths (self w))); simpl.
    + destruct (watch_refusal (os w) p) as [e|]; simpl; intros H;
        [|discriminate H].
      inversion H; subst. repeat split.
    + intros H; discriminate H.
  - intros H. inversion H; subst. repeat split.
Qed.


(** ** The handler of watch events *)

(** Of the events the observer delivers, the handler surfaces exactly the
    created, modified and deleted events of files, in the order they
    arrive; it touches neither the cache nor the registrations. *)
Theorem dispatch_all_surfaces_file_events
    (events : list (Watcher.event_type * Watcher.watch_event))
    (s : FileSystemService) :
  emitted (Watcher.dispatch_all events s)
  = emitted s ++ omap Watcher.surfaced events
  /\ metadata_cache (Watcher.dispatch_all events s) = metadata_cache s
  /\ monitored_paths (Watcher.dispatch_all events s) = monitored_paths s
  /\ observer_watches (Watcher.dispatch_all events s) = observer_watches s.
Proof.
  revert s. induction events as [|[t ev] events IH]; intros s; simpl.
  - rewrite app_nil_r. repeat split.
  - destruct (IH (Watcher.dispatch t ev s)) as (He & Hc & Hm & Hw).
    rewrite He, Hc, Hm, Hw. clear IH He Hc Hm Hw.
    unfold Watcher.dispatch, Watcher.on_created, Watcher.on_modified,
      Watcher.on_deleted.
    destruct t, (Watcher.is_directory ev); simpl;
      rewrite <- ?app_assoc; repeat split.
Qed.

(** ** What a session keeps *)

Lemma registered_once_ext (s s' : FileSystemService) :
  observer_watches s' = observer_watches s ->
  monitored_paths s' = monitored_paths s ->
  registered_once s -> registered_once s'.
Proof.
  intros Hw Hm Hinv q. unfold watch_count. rewrite Hw, Hm. apply Hinv.
Qed.

(** Reading a file changes nothing, however it ends. *)
Lemma read_file_frame (w : world) (p : Path) : snd (read_file p w) = w.
Proof.
  unfold read_file.
  destruct (disk (os w) !! p) as [[data mt|sz mt]|] eqn:Hd; run_with Hd;
    try reflexivity.
  destruct (Utf8.decode Utf8.Strict data); simpl; [reflexivity|].
  repeat (rewrite Hd; simpl).
  destruct (Utf8.decode Utf8.Ignore data); reflexivity.
Qed.

(** A write leaves the service as it was, but for the cache entry of
    the path, which it may drop. *)
Lemma write_file_self (w w' : world) (p : Path) (content : Utf8.text)
    (create_dirs : bool) (o : outcome unit) :
  write_file p content create_dirs w = (o, w') ->
  self w' = self w
  \/ self w' = set_cache (delete p (metadata_cache (self w))) (self w).
Proof.
  unfold write_file, bind, when. intros H.
  destruct (if create_dirs then mkdir_parents (parent p) else ret tt)
    as [o1 w1] eqn:Hmk.
  assert (Hself1 : self w1 = self w).
  { destruct create_dirs.
    - unfold mkdir_parents in Hmk. now apply mkdir_from_frame in Hmk.
    - unfold ret in Hmk. inversion Hmk; subst. reflexivity. }
  destruct o1 as [[]|e1]; [|inversion H; subst; now left].
  destruct (open_w p w1) as [[[]|e2] w2] eqn:Hop.
  2:{ inversion H; subst. apply open_w_raises in Hop. subst. now left. }
  apply open_w_ok in Hop. destruct Hop as (d & -> & _).
  destruct (Utf8.encode content) as [data|].
  - unfold flush_w, cache_pop, modify in H. simpl in H. inversion H; subst.
    right. simpl. rewrite Hself1. reflexivity.
  - unfold raise in H. inversion H; subst. left. exact Hself1.
Qed.

(** What [write_file p] makes of the disk, however it ends. *)
Lemma write_file_disk_frame (w w' : world) (p : Path) (content : Utf8.text)
    (create_dirs : bool) (o : outcome unit) :
  write_file p content create_dirs w = (o, w') ->
  disk_frame p (disk (os w)) (disk (os w')).
Proof.
  unfold write_file, bind, when. intros H.
  destruct (if create_dirs then mkdir_parents (parent p) else ret tt)
    as [o1 w1] eqn:Hmk.
  assert (H1 : disk_frame p (disk (os w)) (disk (os w1))).
  { destruct create_dirs.
    - eapply mkdir_parents_frame. exact Hmk.
    - unfold ret in Hmk. inversion Hmk; subst. apply disk_frame_refl. }
  destruct o1 as [[]|e1]; [|inversion H; subst; exact H1].
  destruct (open_w p w1) as [o2 w2] eqn:Hop.
  assert (H2 : disk_frame p (disk (os w)) (disk (os w2))).
  { eapply disk_frame_trans; [exact H1|]. eapply open_w_frame. exact Hop. }
  destruct o2 as [[]|e2]; [|inversion H; subst; exact H2].
  apply open_w_ok in Hop. destruct Hop as (d & Hw2 & _).
  assert (Hfile : forall data mtime dsize' mtime',
             <[p := File data mtime]> (disk (os w2)) !! p
             <> Some (Dir dsize' mtime')).
  { intros data mtime sz mt. rewrite lookup_insert_eq. discriminate. }
  destruct (Utf8.encode content) as [data|].
  - unfold flush_w, cache_pop, modify in H. simpl in H. inversion H; subst w'.
    simpl. eapply disk_frame_trans; [exact H2|].
    apply disk_frame_insert_file. intros sz mt. subst w2. simpl.
    rewrite lookup_insert_eq. discriminate.
  - unfold raise in H. inversion H; subst w'. exact H2.
Qed.

(** However [write_file] ends, the entries of the disk that are not on
    the way from the root to the path are as they were, every file other
    than the path is as it was, and a directory is still a directory (the
    operating system stamps the ones in which something was made); the
    watches, the monitored roots, the emitted signals and every other
    entry of the cache are as they were. *)
Theorem write_file_frame (w w' : world) (p : Path)
    (content : Utf8.text) (create_dirs : bool) (o : outcome unit) :
  write_file p content create_dirs w = (o, w') ->
  (forall q, ~ q `prefix_of` p -> disk (os w') !! q = disk (os w) !! q)
  /\ (forall q data mtime, q <> p ->
        disk (os w) !! q = Some (File data mtime) ->
        disk (os w') !! q = Some (File data mtime))
  /\ (forall q dsize mtime,
        disk (os w) !! q = Some (Dir dsize mtime) ->
        exists dsize' mtime', disk (os w') !! q = Some (Dir dsize' mtime'))
  /\ (forall q, q <> p ->
      metadata_cache (self w') !! q = metadata_cache (self w) !! q)
  /\ observer_watches (self w') = observer_watches (self w)
  /\ monitored_paths (self w') = monitored_paths (self w)
  /\ emitted (self w') = emitted (self w).
Proof.
  intros H.
  destruct (write_file_disk_frame _ _ _ _ _ _ H) as (Hout & Hfile & Hdir).
  split; [exact Hout|]. split; [exact Hfile|]. split; [exact Hdir|].
  destruct (write_file_self _ _ _ _ _ _ H) as [-> | ->].
  - repeat split.
  - simpl. split; [|repeat split].
    intros q Hq. rewrite lookup_delete_ne by congruence. reflexivity.
Qed.


Lemma start_monitoring_cache (w : world) (p : Path) :
  metadata_cache (self (snd (start_monitoring p w))) = metadata_cache (self w).
Proof.
  unfold start_monitoring.
  destruct (disk (os w) !! p) as [[data mt|sz mt]|] eqn:Hd; run_with Hd;
    try reflexivity.
  destruct (bool_decide (p ∉ monitored_paths (self w))); simpl; [|reflexivity].
  destruct (watch_refusal (os w) p); reflexivity.
Qed.

Lemma cache_coherent_delete (s : FileSystemService) (p : Path) :
  Session.cache_coherent s ->
  Session.cache_coherent (set_cache (delete p (metadata_cache s)) s).
Proof.
  intros Hc q md. simpl. intros Hl.
  destruct (decide (p = q)) as [->|Hne].
  - rewrite lookup_delete_eq in Hl. discriminate.
  - rewrite lookup_delete_ne in Hl by exact Hne. now apply Hc.
Qed.

Lemma cache_coherent_insert (s : FileSystemService) (p : Path)
    (md : FileMetadata) :
  Session.cache_coherent s ->
  path md = p /\ is_hidden md = startswith_dot (name p) ->
  Session.cache_coherent (set_cache (<[p := md]> (metadata_cache s)) s).
Proof.
  intros Hc Hmd q md'. simpl. intros Hl.
  destruct (decide (p = q)) as [<-|Hne].
  - rewrite lookup_insert_eq in Hl. inversion Hl; subst. exact Hmd.
  - rewrite lookup_insert_ne in Hl by exact Hne. now apply Hc.
Qed.

Section Sessions.

Variable magic_from_file : node -> string.

Local Abbreviation get_metadata := (get_metadata magic_from_file).

(** A lookup of a path that is cached or a file on disk returns metadata
    filed under that path; it leaves the disk alone and only adds to the
    cache. *)
Lemma get_metadata_present (w : world) (q : Path) :
  is_Some (metadata_cache (self w) !! q)
  \/ (exists data mtime, disk (os w) !! q = Some (File data mtime)) ->
  Session.cache_coherent (self w) ->
  exists md w1,
    get_metadata q w = (Ok md, w1)
    /\ path md = q /\ is_hidden md = startswith_dot (name q)
    /\ os w1 = os w
    /\ Session.cache_coherent (self w1)
    /\ metadata_cache (self w1) !! q = Some md
    /\ (forall q', is_Some (metadata_cache (self w) !! q') ->
                   is_Some (metadata_cache (self w1) !! q'))
    /\ observer_watches (self w1) = observer_watches (self w)
    /\ monitored_paths (self w1) = monitored_paths (self w).
Proof.
  intros Hsome Hc. destruct (metadata_cache (self w) !! q) as [md|] eqn:Hq.
  - exists md, w. rewrite (get_metadata_hit _ w q md Hq).
    destruct (Hc q md Hq) as [Hp Hh].
    split; [reflexivity|]. split; [exact Hp|]. split; [exact Hh|].
    split; [reflexivity|]. split; [exact Hc|]. split; [exact Hq|].
    split; [auto|]. split; reflexivity.
  - destruct Hsome as [[? Hx]|(data & mt & Hn)]; [discriminate|].
    rewrite (get_metadata_miss _ w q data mt Hq Hn). eexists. eexists.
    split; [reflexivity|]. simpl.
    split; [reflexivity|]. split; [reflexivity|]. split; [reflexivity|].
    split; [|split; [apply lookup_insert_eq|split; [|split; reflexivity]]].
    + apply cache_coherent_insert; [exact Hc|split; reflexivity].
    + intros q' Hs. destruct (decide (q = q')) as [<-|Hne].
      * rewrite lookup_insert_eq. eauto.
      * rewrite lookup_insert_ne by exact Hne. exact Hs.
Qed.

(** What a lookup leaves of the service, however it ends. *)
Lemma get_metadata_self (w : world) (q : Path) :
  Session.cache_coherent (self w) ->
  let w1 := snd (get_metadata q w) in
  Session.cache_coherent (self w1)
  /\ observer_watches (self w1) = observer_watches (self w)
  /\ monitored_paths (self w1) = monitored_paths (self w).
Proof.
  intros Hc.
  destruct (metadata_cache (self w) !! q) as [md|] eqn:Hq.
  - rewrite (get_metadata_hit _ w q md Hq). simpl. auto.
  - destruct (disk (os w) !! q) as [[data mt|sz mt]|] eqn:Hn.
    + destruct (get_metadata_present w q
                  (or_intror (ex_intro _ data (ex_intro _ mt Hn))) Hc)
        as (md & w1 & Hg & _ & _ & _ & Hc1 & _ & _ & Hw & Hm).
      rewrite Hg. simpl. auto.
    + rewrite (get_metadata_dir _ w q sz mt Hq Hn). simpl. auto.
    + rewrite (get_metadata_none _ w q Hq Hn). simpl. auto.
Qed.

Lemma run_step_keeps (st : Session.step) (w : world) :
  registered_once (self w) ->
  Session.cache_coherent (self w) ->
  registered_once (self (Session.run_step magic_from_file st w))
  /\ Session.cache_coherent (self (Session.run_step magic_from_file st w)).
Proof.
  intros Hr Hc. destruct st as [[p|p|p content cd|p| p|]|o]; simpl.
  - destruct (get_metadata_self w p Hc) as (Hc1 & Hw & Hm).
    split; [eapply registered_once_ext; eassumption|exact Hc1].
  - rewrite read_file_frame. auto.
  - destruct (write_file p content cd w) as [o w'] eqn:Hwf. simpl.
    destruct (write_file_self _ _ _ _ _ _ Hwf) as [-> | ->]; [auto|].
    split; [exact Hr|now apply cache_coherent_delete].
  - rewrite delete_file_cases.
    destruct (disk (os w) !! p) as [[data mt|sz mt]|]; simpl; auto.
    split; [exact Hr|now apply cache_coherent_delete].
  - split.
    + destruct w as [o s]. now apply start_monitoring_keeps_registration.
    + intros q md Hl. rewrite start_monitoring_cache in Hl. now apply Hc.
  - split; [exact Hr|]. intros q md Hl. simpl in Hl.
    rewrite lookup_empty in Hl. discriminate.
  - auto.
Qed.

Lemma run_keeps (steps : list Session.step) :
  forall w,
    registered_once (self w) ->
    Session.cache_coherent (self w) ->
    registered_once (self (Session.run magic_from_file steps w))
    /\ Session.cache_coherent (self (Session.run magic_from_file steps w)).
Proof.
  induction steps as [|st steps IH]; intros w Hr Hc; simpl; [auto|].
  destruct (run_step_keeps st w Hr Hc) as [Hr1 Hc1]. now apply IH.
Qed.

Lemma cache_coherent_new (chunk_size : Z) : Session.cache_coherent (new chunk_size).
Proof. intros p md Hl. simpl in Hl. rewrite lookup_empty in Hl. discriminate. Qed.

(** Whatever calls a new service receives, in any order and with the
    operating system changing in any way in between, the observer holds
    exactly one watch for every monitored root and none for any other
    path. *)
Theorem session_keeps_one_watch_per_root (steps : list Session.step)
    (o : os_state) (chunk_size : Z) :
  registered_once
    (self (Session.run magic_from_file steps
             {| os := o; self := new chunk_size |})).
Proof.
  apply run_keeps; [apply registered_once_new|apply cache_coherent_new].
Qed.

(** Whatever calls a new service receives, every entry of its metadata
    cache is filed under the path it describes and carries the hidden
    flag of that path's name. *)
Theorem session_keeps_cache_coherent (steps : list Session.step)
    (o : os_state) (chunk_size : Z) :
  Session.cache_coherent
    (self (Session.run magic_from_file steps
             {| os := o; self := new chunk_size |})).
Proof.
  apply run_keeps; [apply registered_once_new|apply cache_coherent_new].
Qed.

(** ** Listing a directory *)

Local Abbreviation visit := (Streams.visit magic_from_file).
Local Abbreviation anext_listing := (Streams.anext_listing magic_from_file).
Local Abbreviation collect_listing := (Streams.collect_listing magic_from_file).

Local Abbreviation shown := Streams.shown.

Lemma iterdir_on_disk (p q : Path) (d : gmap Path node) :
  q ∈ Streams.iterdir p d -> is_Some (d !! q) /\ q <> [] /\ parent q = p.
Proof.
  unfold Streams.iterdir. intros Hin.
  apply list_elem_of_filter in Hin. destruct Hin as [[Hne Hpar] Hin].
  apply list_elem_of_fmap in Hin. destruct Hin as ([q' n] & -> & Hin).
  apply elem_of_map_to_list in Hin. simpl. eauto.
Qed.

(** The listing from [items] on, each of them cached or a file on disk,
    with nothing else happening until it ends. *)
Lemma collect_listing_visiting (include_hidden : bool) (items : list Path) :
  forall (fuel : nat) (w : world),
    (length items < fuel)%nat ->
    (forall q, q ∈ items ->
       is_Some (metadata_cache (self w) !! q)
       \/ (exists data mtime, disk (os w) !! q = Some (File data mtime))) ->
    Session.cache_coherent (self w) ->
    exists listed w',
      collect_listing fuel (Streams.Visiting items include_hidden) w
      = Some (Ok listed, w')
      /\ path <$> listed = filter (shown include_hidden) items
      /\ os w' = os w
      /\ Session.cache_coherent (self w')
      /\ (forall q, q ∈ items -> is_Some (metadata_cache (self w') !! q))
      /\ (forall q, is_Some (metadata_cache (self w) !! q) ->
                    is_Some (metadata_cache (self w') !! q)).
Proof.
  induction items as [|q items IH]; intros fuel w Hf Hdisk Hc.
  - destruct fuel as [|fuel]; [simpl in Hf; lia|]. simpl.
    exists [], w. split; [reflexivity|]. split; [reflexivity|].
    split; [reflexivity|]. split; [exact Hc|].
    split; [intros q Hq; inversion Hq|auto].
  - destruct fuel as [|fuel]; [simpl in Hf; lia|]. simpl in Hf.
    assert (Hq : is_Some (metadata_cache (self w) !! q)
                 \/ (exists data mtime, disk (os w) !! q = Some (File data mtime)))
      by (apply Hdisk; left).
    destruct (get_metadata_present w q Hq Hc)
      as (md & w1 & Hg & Hpath & Hhid & Hos & Hc1 & Hcached & Hmono & _ & _).
    assert (Hdisk1 : forall q', q' ∈ items ->
              is_Some (metadata_cache (self w1) !! q')
              \/ (exists data mtime, disk (os w1) !! q' = Some (File data mtime))).
    { intros q' Hq'. rewrite Hos.
      destruct (Hdisk q' ltac:(now right)) as [Hin|Hfile]; [left|now right].
      now apply Hmono. }
    assert (Hstep : anext_listing (Streams.Visiting (q :: items) include_hidden) w
                    = if include_hidden || negb (startswith_dot (name q))
                      then (Ok (Some md), Streams.Visiting items include_hidden, w1)
                      else anext_listing (Streams.Visiting items include_hidden) w1).
    { simpl. rewrite Hg, Hhid. reflexivity. }
    change (collect_listing (S fuel) (Streams.Visiting (q :: items) include_hidden) w)
      with (match anext_listing (Streams.Visiting (q :: items) include_hidden) w with
            | (Ok (Some metadata), g', w') =>
              match collect_listing fuel g' w' with
              | Some (Ok listed, w'') => Some (Ok (metadata :: listed), w'')
              | r => r
              end
            | (Ok None, _, w') => Some (Ok [], w')
            | (Raise e, _, w') => Some (Raise e, w')
            end).
    rewrite Hstep.
    destruct (include_hidden || negb (startswith_dot (name q))) eqn:Hshow.
    + destruct (IH fuel w1 ltac:(lia) Hdisk1 Hc1)
        as (listed & w' & Hcol & Hpaths & Hos' & Hc' & Hall & Hmono').
      rewrite Hcol. exists (md :: listed), w'.
      split; [reflexivity|]. split.
      { rewrite fmap_cons, Hpath, Hpaths, filter_cons_True; [reflexivity|].
        unfold shown. rewrite Hshow. exact I. }
      split; [congruence|]. split; [exact Hc'|]. split; [|auto].
      intros q' Hq'. apply elem_of_cons in Hq'. destruct Hq' as [->|Hq'].
      * apply Hmono'. rewrite Hcached. eauto.
      * now apply Hall.
    + destruct (IH (S fuel) w1 ltac:(lia) Hdisk1 Hc1)
        as (listed & w' & Hcol & Hpaths & Hos' & Hc' & Hall & Hmono').
      change (collect_listing (S fuel) (Streams.Visiting items include_hidden) w1)
        with (match anext_listing (Streams.Visiting items include_hidden) w1 with
              | (Ok (Some metadata), g', w') =>
                match collect_listing fuel g' w' with
                | Some (Ok listed, w'') => Some (Ok (metadata :: listed), w'')
                | r => r
                end
              | (Ok None, _, w') => Some (Ok [], w')
              | (Raise e, _, w') => Some (Raise e, w')
              end) in Hcol.
      rewrite Hcol. exists listed, w'.
      split; [reflexivity|]. split.
      { rewrite Hpaths, filter_cons_False; [reflexivity|].
        unfold shown. rewrite Hshow. exact id. }
      split; [congruence|]. split; [exact Hc'|]. split; [|auto].
      intros q' Hq'. apply elem_of_cons in Hq'. destruct Hq' as [->|Hq'].
      * apply Hmono'. rewrite Hcached. eauto.
      * now apply Hall.
Qed.

(** Calling [list_directory] only makes the generator.  Asked for its
    first entry, the generator of a missing path raises
    [FileNotFoundError] and that of a file raises [NotADirectoryError];
    neither emits the error signal nor changes anything. *)
Theorem list_directory_defers_checks (w : world) (p : Path)
    (include_hidden : bool) :
  Streams.list_directory p include_hidden w
  = (Ok (Streams.Listing p include_hidden), w)
  /\ (disk (os w) !! p = None ->
      anext_listing (Streams.Listing p include_hidden) w
      = (Raise (Exn FileNotFoundError ("Directory not found: " ++ path_str p)),
         Streams.Finished, w))
  /\ (forall data mtime, disk (os w) !! p = Some (File data mtime) ->
      anext_listing (Streams.Listing p include_hidden) w
      = (Raise (Exn NotADirectoryError
                  ("Path is not a directory: " ++ path_str p)),
         Streams.Finished, w)).
Proof.
  split; [reflexivity|]. split.
  - intros Hd. simpl. rewrite Hd. reflexivity.
  - intros data mtime Hd. simpl. rewrite Hd. reflexivity.
Qed.

(** Listing a directory none of whose children is a directory (unless
    its metadata is cached) to the end, with nothing else happening
    meanwhile, yields one entry for every child whose name does not start
    with a dot, or for every child if hidden ones are asked for, each
    filed under the child's path; it leaves the disk as it was and the
    metadata of every child, hidden or not, in the cache. *)
Theorem list_directory_lists_children (w : world) (p : Path) (dsize mtime : Z)
    (include_hidden : bool) :
  disk (os w) !! p = Some (Dir dsize mtime) ->
  Session.cache_coherent (self w) ->
  (forall q dsize' mtime',
     q ∈ Streams.iterdir p (disk (os w)) ->
     disk (os w) !! q = Some (Dir dsize' mtime') ->
     is_Some (metadata_cache (self w) !! q)) ->
  exists listed w',
    collect_listing (S (length (Streams.iterdir p (disk (os w)))))
      (Streams.Listing p include_hidden) w
    = Some (Ok listed, w')
    /\ path <$> listed
       = filter (shown include_hidden) (Streams.iterdir p (disk (os w)))
    /\ os w' = os w
    /\ (forall q, q ∈ Streams.iterdir p (disk (os w)) ->
                  is_Some (metadata_cache (self w') !! q)).
Proof.
  intros Hd Hc Hfiles.
  assert (Hitems : forall q, q ∈ Streams.iterdir p (disk (os w)) ->
            is_Some (metadata_cache (self w) !! q)
            \/ (exists data mtime', disk (os w) !! q = Some (File data mtime'))).
  { intros q Hq. destruct (iterdir_on_disk p q _ Hq) as [[n Hn] _].
    destruct n as [data mt|sz mt]; [right; eauto|left].
    exact (Hfiles q sz mt Hq Hn). }
  destruct (collect_listing_visiting include_hidden
              (Streams.iterdir p (disk (os w)))
              (S (length (Streams.iterdir p (disk (os w))))) w
              (Nat.lt_succ_diag_r _) Hitems Hc)
    as (listed & w' & Hcol & Hpaths & Hos & _ & Hall & _).
  exists listed, w'. split; [|auto].
  rewrite <- Hcol. simpl. rewrite Hd. reflexivity.
Qed.

(** A child that is no longer on disk when the listing comes to it is
    passed over, without an exception and without a signal, unless its
    metadata is cached: then the cached entry stands in for it. *)
Theorem list_directory_skips_vanished (w : world) (q : Path)
    (items : list Path) (include_hidden : bool) :
  disk (os w) !! q = None ->
  anext_listing (Streams.Visiting (q :: items) include_hidden) w
  = match metadata_cache (self w) !! q with
    | None => anext_listing (Streams.Visiting items include_hidden) w
    | Some md =>
      if include_hidden || negb (is_hidden md)
      then (Ok (Some md), Streams.Visiting items include_hidden, w)
      else anext_listing (Streams.Visiting items include_hidden) w
    end.
Proof.
  intros Hd. simpl.
  destruct (metadata_cache (self w) !! q) as [md|] eqn:Hq.
  - rewrite (get_metadata_hit _ w q md Hq). reflexivity.
  - unfold FileSystem.get_metadata. unfold_ops. simpl. rewrite Hq. simpl.
    rewrite Hd. reflexivity.
Qed.

(** A child that is a directory, and whose metadata is not cached, ends
    the listing: the [IsADirectoryError] of the sniffer is not one of the
    errors the loop passes over, so the error signal is emitted with its
    message and it is raised; the entries after it are never reached. *)
Theorem list_directory_stops_at_directory (w : world) (q : Path)
    (items : list Path) (include_hidden : bool) (dsize mtime : Z) :
  disk (os w) !! q = Some (Dir dsize mtime) ->
  metadata_cache (self w) !! q = None ->
  anext_listing (Streams.Visiting (q :: items) include_hidden) w
  = (Raise (EISDIR q), Streams.Finished,
     set_self (emit (error_occurred (exn_msg (EISDIR q))) (self w)) w).
Proof.
  intros Hd Hq. simpl.
  rewrite (get_metadata_dir _ w q dsize mtime Hq Hd). reflexivity.
Qed.

End Sessions.

(** ** The properties above on sample worlds *)

Lemma write_file_read_file_round_trip_witness :
  let w' := snd (write_file Samples.notes Samples.hello true Samples.w_cached) in
  write_file Samples.notes Samples.hello true Samples.w_cached = (Ok tt, w')
  /\ read_file Samples.notes w'
     = (Ok (Utf8.universal_newlines Samples.hello), w')
  /\ (Forall (fun c => c <> 13%N) Samples.hello ->
      read_file Samples.notes w' = (Ok Samples.hello, w')).
Proof.
  intros w'. split; [vm_compute; reflexivity|].
  apply (write_file_read_file_round_trip Samples.w_cached w' Samples.notes
           Samples.hello true).
  vm_compute; reflexivity.
Defined.


Lemma delete_file_removes_witness :
  let w' := snd (delete_file Samples.notes Samples.w_cached) in
  delete_file Samples.notes Samples.w_cached = (Ok tt, w')
  /\ disk (os w') !! Samples.notes = None
  /\ metadata_cache (self w') !! Samples.notes = None
  /\ disk (os w') !! Samples.home = Some (Dir 4096 20)
  /\ (forall q, q <> Samples.notes -> q <> parent Samples.notes ->
                disk (os w') !! q = disk (os Samples.w_cached) !! q)
  /\ (forall q data mtime, q <> Samples.notes ->
        disk (os Samples.w_cached) !! q = Some (File data mtime) ->
        disk (os w') !! q = Some (File data mtime))
  /\ (forall q dsize mtime,
        disk (os Samples.w_cached) !! q = Some (Dir dsize mtime) ->
        exists dsize' mtime', disk (os w') !! q = Some (Dir dsize' mtime'))
  /\ fst (get_metadata Samples.sniff_plain Samples.notes w')
     = Raise (Exn FileNotFoundError ("File not found: " ++ path_str Samples.notes))
  /\ fst (read_file Samples.notes w')
     = Raise (Exn FileNotFoundError ("File not found: " ++ path_str Samples.notes)).
Proof.
  intros w'. split; [vm_compute; reflexivity|].
  pose proof (delete_file_removes Samples.sniff_plain Samples.w_cached w'
                Samples.notes ltac:(vm_compute; reflexivity))
    as (Hgone & Hc & Hrest).
  split; [exact Hgone|]. split; [exact Hc|].
  split; [vm_compute; reflexivity|exact Hrest].
Defined.

Lemma delete_file_directory_witness :
  disk (os Samples.w0) !! Samples.home = Some (Dir 4096 5)
  /\ exists w',
       delete_file Samples.home Samples.w0 = (Raise (EISDIR Samples.home), w')
       /\ os w' = os Samples.w0
       /\ metadata_cache (self w') = metadata_cache (self Samples.w0)
       /\ emitted (self w')
          = emitted (self Samples.w0)
            ++ [error_occurred (exn_msg (EISDIR Samples.home))].
Proof.
  split; [vm_compute; reflexivity|].
  apply (delete_file_directory Samples.w0 Samples.home 4096 5).
  vm_compute; reflexivity.
Defined.

Lemma missing_path_not_found_witness :
  disk (os Samples.w0) !! Samples.absent = None
  /\ read_file Samples.absent Samples.w0
     = (Raise (Exn FileNotFoundError
                 ("File not found: " ++ path_str Samples.absent)), Samples.w0)
  /\ delete_file Samples.absent Samples.w0
     = (Raise (Exn FileNotFoundError
                 ("File not found: " ++ path_str Samples.absent)), Samples.w0).
Proof.
  split; [reflexivity|].
  apply (missing_path_not_found Samples.w0 Samples.absent). reflexivity.
Defined.


Lemma read_binary_refused_chunk_size_witness :
  disk (os Scenarios.w_refused) !! Samples.notes = Some (File [x68; x69]%byte 10)
  /\ chunk_size (self Scenarios.w_refused) < -1
  /\ anext (Created Samples.notes) Scenarios.w_refused
     = (Raise (Exn ValueError "read length must be non-negative or -1"),
        Closed, Scenarios.w_refused)
  /\ Streams.collect_chunks 1 (Created Samples.notes) Scenarios.w_refused
     = Some (Raise (Exn ValueError "read length must be non-negative or -1")).
Proof.
  split; [vm_compute; reflexivity|]. split; [reflexivity|].
  apply (read_binary_refused_chunk_size Scenarios.w_refused Samples.notes
           [x68; x69]%byte 10 0).
  - vm_compute; reflexivity.
  - reflexivity.
Defined.

Lemma read_binary_zero_chunk_size_witness :
  disk (os Scenarios.w_zero) !! Samples.notes = Some (File [x68; x69]%byte 10)
  /\ chunk_size (self Scenarios.w_zero) = 0
  /\ Streams.collect_chunks 1 (Created Samples.notes) Scenarios.w_zero
     = Some (Ok []).
Proof.
  split; [vm_compute; reflexivity|]. split; [reflexivity|].
  apply (read_binary_zero_chunk_size Scenarios.w_zero Samples.notes
           [x68; x69]%byte 10 0).
  - vm_compute; reflexivity.
  - reflexivity.
Defined.

Lemma write_file_creates_parents_witness :
  let w' := snd (write_file Scenarios.deep Samples.hello true Samples.w0) in
  write_file Scenarios.deep Samples.hello true Samples.w0 = (Ok tt, w')
  /\ (0 < 2 < length Scenarios.deep)%nat
  /\ disk (os Samples.w0) !! take 2 Scenarios.deep = None
  /\ exists dsize mtime,
       disk (os w') !! take 2 Scenarios.deep = Some (Dir dsize mtime).
Proof.
  intros w'. split; [vm_compute; reflexivity|].
  split; [simpl; lia|]. split; [vm_compute; reflexivity|].
  apply (write_file_creates_parents Samples.w0 w' Scenarios.deep Samples.hello 2).
  - vm_compute; reflexivity.
  - simpl; lia.
Defined.

Lemma write_file_frame_witness :
  let w' := snd (write_file Scenarios.deep Samples.hello true Samples.w_cached) in
  write_file Scenarios.deep Samples.hello true Samples.w_cached = (Ok tt, w')
  /\ disk (os w') !! Samples.home = Some (Dir 4096 20)
  /\ (forall q, ~ q `prefix_of` Scenarios.deep ->
        disk (os w') !! q = disk (os Samples.w_cached) !! q)
  /\ (forall q data mtime, q <> Scenarios.deep ->
        disk (os Samples.w_cached) !! q = Some (File data mtime) ->
        disk (os w') !! q = Some (File data mtime))
  /\ (forall q dsize mtime,
        disk (os Samples.w_cached) !! q = Some (Dir dsize mtime) ->
        exists dsize' mtime', disk (os w') !! q = Some (Dir dsize' mtime'))
  /\ (forall q, q <> Scenarios.deep ->
        metadata_cache (self w') !! q
        = metadata_cache (self Samples.w_cached) !! q)
  /\ observer_watches (self w') = observer_watches (self Samples.w_cached)
  /\ monitored_paths (self w') = monitored_paths (self Samples.w_cached)
  /\ emitted (self w') = emitted (self Samples.w_cached).
Proof.
  intros w'. split; [vm_compute; reflexivity|].
  split; [vm_compute; reflexivity|].
  apply (write_file_frame Samples.w_cached w' Scenarios.deep
           Samples.hello true (Ok tt)).
  vm_compute; reflexivity.
Defined.

Lemma write_file_unencodable_witness :
  disk (os Samples.w_cached) !! parent Samples.notes = Some (Dir 4096 5)
  /\ (forall dsize' mtime',
        disk (os Samples.w_cached) !! Samples.notes <> Some (Dir dsize' mtime'))
  /\ Utf8.encode Scenarios.surrogate = None
  /\ exists w',
       write_file Samples.notes Scenarios.surrogate false Samples.w_cached
       = (Raise encode_error, w')
       /\ disk (os w') !! Samples.notes
          = Some (File [] (clock (os Samples.w_cached)))
       /\ self w' = self Samples.w_cached.
Proof.
  assert (Hnot : forall dsize' mtime',
    disk (os Samples.w_cached) !! Samples.notes <> Some (Dir dsize' mtime')).
  { intros sz mt. vm_compute. discriminate. }
  split; [vm_compute; reflexivity|]. split; [exact Hnot|].
  split; [reflexivity|].
  apply (write_file_unencodable Samples.w_cached Samples.notes
           Scenarios.surrogate 4096 5).
  - vm_compute; reflexivity.
  - exact Hnot.
  - reflexivity.
Defined.

Lemma start_monitoring_failure_witness :
  fst (start_monitoring Samples.home Scenarios.w_refusing)
  = Raise Scenarios.watch_limit
  /\ let w' := snd (start_monitoring Samples.home Scenarios.w_refusing) in
     os w' = os Scenarios.w_refusing
     /\ observer_watches (self w') = observer_watches (self Scenarios.w_refusing)
     /\ monitored_paths (self w') = monitored_paths (self Scenarios.w_refusing)
     /\ emitted (self w')
        = match disk (os Scenarios.w_refusing) !! Samples.home with
          | Some (Dir _ _) =>
            emitted (self Scenarios.w_refusing)
            ++ [error_occurred (exn_msg Scenarios.watch_limit)]
          | _ => emitted (self Scenarios.w_refusing)
          end
     /\ match disk (os Scenarios.w_refusing) !! Samples.home with
        | Some (Dir _ _) =>
          watch_refusal (os Scenarios.w_refusing) Samples.home
          = Some Scenarios.watch_limit
        | Some (File _ _) => exn_cls Scenarios.watch_limit = NotADirectoryError
        | None => exn_cls Scenarios.watch_limit = FileNotFoundError
        end.
Proof.
  split; [vm_compute; reflexivity|].
  apply (start_monitoring_failure Scenarios.w_refusing Samples.home
           Scenarios.watch_limit).
  vm_compute; reflexivity.
Defined.

Lemma list_directory_lists_children_witness :
  disk (os Samples.w0) !! Samples.home = Some (Dir 4096 5)
  /\ Session.cache_coherent (self Samples.w0)
  /\ Streams.iterdir Samples.home (disk (os Samples.w0)) = [Samples.notes]
  /\ (forall q dsize' mtime',
        q ∈ Streams.iterdir Samples.home (disk (os Samples.w0)) ->
        disk (os Samples.w0) !! q = Some (Dir dsize' mtime') ->
        is_Some (metadata_cache (self Samples.w0) !! q))
  /\ exists listed w',
       Streams.collect_listing Samples.sniff_plain
         (S (length (Streams.iterdir Samples.home (disk (os Samples.w0)))))
         (Streams.Listing Samples.home false) Samples.w0
       = Some (Ok listed, w')
       /\ path <$> listed
          = filter (Streams.shown false)
              (Streams.iterdir Samples.home (disk (os Samples.w0)))
       /\ os w' = os Samples.w0
       /\ (forall q, q ∈ Streams.iterdir Samples.home (disk (os Samples.w0)) ->
                     is_Some (metadata_cache (self w') !! q)).
Proof.
  assert (Hitems : Streams.iterdir Samples.home (disk (os Samples.w0))
                   = [Samples.notes]) by (vm_compute; reflexivity).
  assert (Hfiles : forall q dsize' mtime',
            q ∈ Streams.iterdir Samples.home (disk (os Samples.w0)) ->
            disk (os Samples.w0) !! q = Some (Dir dsize' mtime') ->
            is_Some (metadata_cache (self Samples.w0) !! q)).
  { intros q sz mt Hq. rewrite Hitems in Hq.
    apply list_elem_of_singleton in Hq. subst q. vm_compute. discriminate. }
  split; [vm_compute; reflexivity|].
  split; [apply cache_coherent_new|]. split; [exact Hitems|].
  split; [exact Hfiles|].
  apply (list_directory_lists_children Samples.sniff_plain Samples.w0
           Samples.home 4096 5 false).
  - vm_compute; reflexivity.
  - apply cache_coherent_new.
  - exact Hfiles.
Defined.

Lemma list_directory_stops_at_directory_witness :
  disk (os Scenarios.w_nested) !! Scenarios.docs = Some (Dir 4096 6)
  /\ metadata_cache (self Scenarios.w_nested) !! Scenarios.docs = None
  /\ Streams.anext_listing Samples.sniff_plain
       (Streams.Visiting [Scenarios.docs; Samples.notes] false) Scenarios.w_nested
     = (Raise (Exn IsADirectoryError "[Errno 21] Is a directory: '/home/docs'"),
        Streams.Finished,
        set_self
          (emit (error_occurred "[Errno 21] Is a directory: '/home/docs'")
             (self Scenarios.w_nested)) Scenarios.w_nested).
Proof.
  split; [vm_compute; reflexivity|]. split; [reflexivity|].
  apply (list_directory_stops_at_directory Samples.sniff_plain
           Scenarios.w_nested Scenarios.docs [Samples.notes] false 4096 6).
  - vm_compute; reflexivity.
  - reflexivity.
Defined.

Lemma list_directory_skips_vanished_witness :
  disk (os Samples.w0) !! Samples.absent = None
  /\ Streams.anext_listing Samples.sniff_plain
       (Streams.Visiting [Samples.absent; Samples.notes] false) Samples.w0
     = match metadata_cache (self Samples.w0) !! Samples.absent with
       | None =>
         Streams.anext_listing Samples.sniff_plain
           (Streams.Visiting [Samples.notes] false) Samples.w0
       | Some md =>
         if false || negb (is_hidden md)
         then (Ok (Some md), Streams.Visiting [Samples.notes] false, Samples.w0)
         else Streams.anext_listing Samples.sniff_plain
                (Streams.Visiting [Samples.notes] false) Samples.w0
       end.
Proof.
  split; [reflexivity|].
  apply (list_directory_skips_vanished Samples.sniff_plain Samples.w0
           Samples.absent [Samples.notes] false).
  reflexivity.
Defined.
End FileSystemFacts.

(** * More on the AI service *)
Module AIFacts.

Import FileSystem (Path, path_str).
Import AI AIProofs Lifecycle.

(** ** The rate limiter *)

Lemma inject_Z_succ (k : nat) :
  (inject_Z (Z.of_nat (S k)) == inject_Z (Z.of_nat k) + 1)%Q.
Proof. rewrite Nat2Z.inj_succ. unfold Z.succ. now rewrite inject_Z_plus. Qed.

(** [k] calls in a row go through without waiting as long as the balance
    covers them. *)
Lemma drain_spec (k : nat) :
  forall l,
    (inject_Z (Z.of_nat k) - 1 < tokens l)%Q ->
    exists l',
      drain k l = Some l'
      /\ (tokens l' == tokens l - inject_Z (Z.of_nat k))%Q
      /\ rate_limit l' = rate_limit l
      /\ last_update l' = last_update l.
Proof.
  induction k as [|k IH]; intros l Hk.
  - exists l. split; [reflexivity|]. split; [|auto].
    change (inject_Z (Z.of_nat 0)) with 0%Q. lra.
  - pose proof (inject_Z_succ k) as Hs.
    assert (Hpos : (0 < tokens l)%Q).
    { assert (0 <= inject_Z (Z.of_nat k))%Q
        by (change 0%Q with (inject_Z 0); rewrite <- Zle_Qle; lia).
      lra. }
    simpl. rewrite (acquire_immediate [] l Hpos).
    destruct (IH (take_token l)) as (l' & Hd & Ht & Hr & Hu).
    { simpl. lra. }
    exists l'. split; [exact Hd|]. split; [|auto]. simpl in Ht. lra.
Qed.

(** A new limiter lets through as many calls as its capacity without
    making any of them wait, the balance going down by one each time; the
    call after them finds nothing left and has to wait for the clock. *)
Theorem limiter_burst (capacity k : nat) (now : Z) :
  (k <= capacity)%nat ->
  exists l,
    drain k (new_limiter (Z.of_nat capacity) now) = Some l
    /\ (tokens l == inject_Z (Z.of_nat capacity) - inject_Z (Z.of_nat k))%Q
    /\ last_update l = now
    /\ (k = capacity -> acquire [] l = None).
Proof.
  intros Hk.
  destruct (drain_spec k (new_limiter (Z.of_nat capacity) now))
    as (l & Hd & Ht & _ & Hu).
  { simpl. assert (inject_Z (Z.of_nat k) <= inject_Z (Z.of_nat capacity))%Q
      by (rewrite <- Zle_Qle; lia). lra. }
  exists l. split; [exact Hd|]. split; [exact Ht|]. split; [exact Hu|].
  intros ->. unfold acquire. rewrite wait_for_token_eq.
  assert (Hz : (tokens l <= 0)%Q) by (simpl in Ht; lra).
  apply Qle_bool_iff in Hz. rewrite Hz. reflexivity.
Qed.

Lemma reachable_above_minus_one (l : AsyncRateLimiter) :
  reachable l -> 0 < rate_limit l -> (-1 < tokens l)%Q.
Proof.
  intros Hr Hrate. destruct Hr as [rpm now|l0 readings l' rest _ Hacq].
  - simpl in *. assert (inject_Z 0 < inject_Z rpm)%Q by (rewrite <- Zlt_Qlt; lia).
    change (inject_Z 0) with 0%Q in *. lra.
  - apply acquire_spec in Hacq. tauto.
Qed.

Lemma refill_amount (a c : Z) :
  60000000 < a * c -> (1 < Qmake a 60000000 * inject_Z c)%Q.
Proof. intros H. unfold Qlt, Qmult, inject_Z. simpl. lia. Qed.

(** A reachable limiter of positive capacity never makes a caller wait
    past the time one token takes to refill: at a clock reading more than
    a minute over the capacity after the last update, [acquire] returns,
    having looked at the clock at most that once. *)
Theorem acquire_returns_after_one_refill (l : AsyncRateLimiter) (now : Z)
    (later : list Z) :
  reachable l ->
  0 < rate_limit l ->
  60000000 < (now - last_update l) * rate_limit l ->
  acquire (now :: later) l = Some (take_token l, now :: later)
  \/ acquire (now :: later) l = Some (take_token (refill now l), later).
Proof.
  intros Hr Hrate Hlate.
  pose proof (reachable_above_minus_one l Hr Hrate) as Hlow.
  destruct (Qle_bool (tokens l) 0) eqn:Hle.
  - right. unfold acquire. rewrite wait_for_token_eq, Hle.
    rewrite wait_for_token_eq.
    assert (Hpos : (0 < tokens (refill now l))%Q).
    { simpl. apply Q.min_glb_lt.
      - change 0%Q with (inject_Z 0). rewrite <- Zlt_Qlt. lia.
      - pose proof (refill_amount _ _ Hlate) as Ham.
        unfold minutes_between. lra. }
    destruct (Qle_bool (tokens (refill now l)) 0) eqn:Hle'; [|reflexivity].
    apply Qle_bool_iff in Hle'. lra.
  - left. apply acquire_immediate. apply Qnot_le_lt. intros Hc.
    apply Qle_bool_iff in Hc. congruence.
Qed.

(** A limiter made with a rate of zero, or less, never lets a call
    through, whatever the clock does. *)
Theorem acquire_never_returns_without_rate (rpm now : Z) (readings : list Z) :
  rpm <= 0 -> acquire readings (new_limiter rpm now) = None.
Proof.
  intros Hrpm. unfold acquire.
  assert (Hgen : forall l, rate_limit l <= 0 -> (tokens l <= 0)%Q ->
                           wait_for_token readings l = None).
  { induction readings as [|t readings IH]; intros l Hrl Htk;
      rewrite wait_for_token_eq; apply Qle_bool_iff in Htk as Hb; rewrite Hb;
      [reflexivity|].
    apply IH; [exact Hrl|]. simpl.
    eapply Qle_trans; [apply Q.le_min_l|].
    change 0%Q with (inject_Z 0). rewrite <- Zle_Qle. exact Hrl. }
  rewrite Hgen; [reflexivity|exact Hrpm|].
  simpl. change 0%Q with (inject_Z 0). rewrite <- Zle_Qle. exact Hrpm.
Qed.


(** ** Commands *)

(** What the [try] body leaves of the service, however it ends: one more
    request sent, the one for the command; limiter and model untouched. *)
Lemma try_body_frame (command : string) (x : exchange) (s : AIService) :
  let s2 := snd (try_body command x s) in
  sent s2 = sent s ++ [request_of command s]
  /\ rate_limiter s2 = rate_limiter s
  /\ model s2 = model s
  /\ _is_initialized s2 = _is_initialized s.
Proof.
  unfold try_body. destruct (endpoint x (request_of command s)) as [st|e].
  - rewrite consume_spec. destruct (failure st) as [e|]; [simpl; auto|].
    simpl. destruct (context s) as [c|] eqn:Hctx; simpl; rewrite ?Hctx; simpl;
      auto.
  - simpl. auto.
Qed.

Lemma handle_frame (e0 : exn) (s : AIService) :
  let s' := snd (handle e0 s) in
  sent s' = sent s /\ rate_limiter s' = rate_limiter s
  /\ model s' = model s /\ _is_initialized s' = _is_initialized s
  /\ context s' = context s.
Proof. unfold handle. destruct (exn_cls e0); simpl; auto. Qed.

(** Every command that gets past the initialisation check and the
    limiter spends the token it was granted and sends exactly one
    request, made of the model, the prompt built from the context and the
    command, whether it then succeeds or fails. *)
Theorem process_command_spends_token_and_sends (command : string)
    (x : exchange) (s s' : AIService) (l : AsyncRateLimiter) (rest : list Z)
    (out : outcome AIResponse) :
  _is_initialized s = true ->
  acquire (readings x) (rate_limiter s) = Some (l, rest) ->
  process_command command x s = Some (out, s') ->
  rate_limiter s' = l
  /\ sent s' = sent s ++ [request_of command s]
  /\ req_system (request_of command s) = _build_system_prompt s
  /\ req_user (request_of command s) = command
  /\ model s' = model s
  /\ _is_initialized s' = true.
Proof.
  intros Hinit Hacq H. unfold process_command in H.
  rewrite Hinit, Hacq in H. simpl in H.
  pose proof (try_body_frame command x (set_rate_limiter l s)) as Hf.
  change (request_of command (set_rate_limiter l s))
    with (request_of command s) in Hf.
  simpl in Hf. rewrite Hinit in Hf.
  destruct (try_body command x (set_rate_limiter l s)) as [[r|e0] s2].
  - inversion H; subst. simpl in Hf. destruct Hf as (Hs & Hr & Hm & Hi).
    repeat split; assumption.
  - pose proof (handle_frame e0 s2) as Hh.
    destruct (handle e0 s2) as [o' s3]. inversion H; subst.
    simpl in Hf, Hh. destruct Hf as (Hs & Hr & Hm & Hi).
    destruct Hh as (Hs' & Hr' & Hm' & Hi' & _).
    repeat split; congruence.
Qed.

(** With a context set, a command whose stream runs to its end never
    returns a response: the exchange is recorded in the context, then the
    copy of the context raises [AttributeError], which is notified as an
    unexpected error and raised to the caller; no completion signal is
    emitted. *)
Theorem process_command_with_context_raises (command : string) (x : exchange)
    (s : AIService) (l : AsyncRateLimiter) (rest : list Z) (st : stream)
    (c : AIContext) :
  _is_initialized s = true ->
  acquire (readings x) (rate_limiter s) = Some (l, rest) ->
  endpoint x (request_of command s) = Ok st ->
  failure st = None ->
  context s = Some c ->
  exists s',
    process_command command x s
    = Some (Raise (Exn AttributeError "'AIContext' object has no attribute 'copy'"),
            s')
    /\ context s'
       = Some (record_exchange command
                 (String.concat "" (chunk_text <$> chunks st))
                 (context_time x) c)
    /\ emitted s'
       = emitted s ++ [response_started]
         ++ (response_chunk <$> spoken (chunks st))
         ++ [error_occurred
               "Unexpected error in AI processing: 'AIContext' object has no attribute 'copy'"].
Proof.
  intros Hinit Hacq Hend Hfail Hctx. unfold process_command.
  rewrite Hinit, Hacq. simpl. unfold try_body.
  change (request_of command (set_rate_limiter l s)) with (request_of command s).
  rewrite Hend, consume_spec, Hfail. simpl. rewrite Hctx. simpl.
  eexists. split; [reflexivity|]. simpl. split.
  - rewrite concat_spoken. reflexivity.
  - rewrite <- !app_assoc. reflexivity.
Qed.

(** A command that the endpoint fails, at the request or in mid-stream,
    leaves the context exactly as it was: nothing of the failed exchange
    is recorded. *)
Theorem process_command_remote_failure_keeps_context (command : string)
    (x : exchange) (s : AIService) (l : AsyncRateLimiter) (rest : list Z)
    (e0 : exn) :
  _is_initialized s = true ->
  acquire (readings x) (rate_limiter s) = Some (l, rest) ->
  endpoint x (request_of command s) = Raise e0
  \/ (exists st, endpoint x (request_of command s) = Ok st
                 /\ failure st = Some e0) ->
  exists e s',
    process_command command x s = Some (Raise e, s')
    /\ context s' = context s.
Proof.
  intros Hinit Hacq Hcause. unfold process_command.
  rewrite Hinit, Hacq. simpl.
  assert (Htb : exists s2, try_body command x (set_rate_limiter l s) = (Raise e0, s2)
                           /\ context s2 = context s).
  { unfold try_body.
    change (request_of command (set_rate_limiter l s)) with (request_of command s).
    destruct Hcause as [He|(st & He & Hf)]; rewrite He.
    - eexists. split; reflexivity.
    - rewrite consume_spec, Hf. eexists. split; reflexivity. }
  destruct Htb as (s2 & Htb & Hc2). rewrite Htb.
  pose proof (handle_frame e0 s2) as Hh.
  destruct (handle_spec e0 s2) as (e & msg & Hhs). rewrite Hhs in *.
  exists e, (emit (error_occurred msg) s2). split; [reflexivity|].
  simpl. exact Hc2.
Qed.

(** Whenever the endpoint fails a command, at the request or in
    mid-stream, with the exception [e0], the command fails too and
    returns no response: it raises a [ConnectionError] for a timeout, [e0]
    itself for a rate limit rejection, a [ConnectionError] that wraps the
    message for another API error, and [e0] itself for anything else.  The
    error signal with the matching message is the last signal emitted,
    after the start signal and the signals of the chunks received until
    then, and no completion signal; the chunks received are dropped, the
    context being left exactly as it was. *)
Theorem process_command_remote_failure_reported (command : string)
    (x : exchange) (s : AIService) (l : AsyncRateLimiter) (rest : list Z)
    (e0 : exn) :
  _is_initialized s = true ->
  acquire (readings x) (rate_limiter s) = Some (l, rest) ->
  endpoint x (request_of command s) = Raise e0
  \/ (exists st, endpoint x (request_of command s) = Ok st
                 /\ failure st = Some e0) ->
  exists e msg s',
    process_command command x s = Some (Raise e, s')
    /\ emitted s'
       = emitted s ++ [response_started]
         ++ (response_chunk
               <$> match endpoint x (request_of command s) with
                   | Ok st => spoken (chunks st)
                   | Raise _ => []
                   end)
         ++ [error_occurred msg]
    /\ context s' = context s
    /\ match exn_cls e0 with
       | APITimeoutError =>
         e = Exn ConnectionError "AI request timed out"
         /\ msg = "AI request timed out"
       | RateLimitError =>
         e = e0 /\ msg = "AI rate limit exceeded"
       | APIConnectionError | APIStatusError =>
         e = Exn ConnectionError ("AI API error: " ++ exn_msg e0)
         /\ msg = ("AI API error: " ++ exn_msg e0)%string
       | _ =>
         e = e0
         /\ msg = ("Unexpected error in AI processing: " ++ exn_msg e0)%string
       end.
Proof.
  intros Hinit Hacq Hcause. unfold process_command.
  rewrite Hinit, Hacq. simpl.
  assert (Htb : exists s2,
    try_body command x (set_rate_limiter l s) = (Raise e0, s2)
    /\ context s2 = context s
    /\ emitted s2
       = emitted s ++ [response_started]
         ++ (response_chunk
               <$> match endpoint x (request_of command s) with
                   | Ok st => spoken (chunks st)
                   | Raise _ => []
                   end)).
  { unfold try_body.
    change (request_of command (set_rate_limiter l s)) with (request_of command s).
    destruct Hcause as [He|(st & He & Hf)]; rewrite He.
    - eexists. split; [reflexivity|]. split; reflexivity.
    - rewrite consume_spec, Hf. eexists. split; [reflexivity|].
      split; [reflexivity|]. simpl. rewrite <- app_assoc. reflexivity. }
  destruct Htb as (s2 & Htb & Hc2 & Hem). rewrite Htb.
  assert (Hlast : forall msg,
    emitted (emit (error_occurred msg) s2)
    = emitted s ++ [response_started]
      ++ (response_chunk
            <$> match endpoint x (request_of command s) with
                | Ok st => spoken (chunks st)
                | Raise _ => []
                end)
      ++ [error_occurred msg]).
  { intros msg. simpl. rewrite Hem, <- !app_assoc. reflexivity. }
  unfold handle.
  destruct (exn_cls e0); eexists; eexists; eexists;
    (split; [reflexivity|]); (split; [apply Hlast|]);
    (split; [exact Hc2|]); split; reflexivity.
Qed.

(** ** The context *)

Lemma update_contexts_carried (calls : list (option Path * option (list Path) * Z)) :
  forall s,
    carried last_command (context (update_contexts calls s))
    = carried last_command (context s)
    /\ carried last_response (context (update_contexts calls s))
       = carried last_response (context s).
Proof.
  induction calls as [|[[ws sel] now] calls IH]; intros s; simpl; [auto|].
  destruct (IH (update_context ws sel now s)) as [-> ->]. auto.
Qed.

(** After any number of [update_context] calls the context is the one
    the last call asked for; the last command and the last response are
    still those the service had before the first of them. *)
Theorem update_context_last_call_wins
    (calls : list (option Path * option (list Path) * Z))
    (workspace : option Path) (selection : option (list Path)) (now : Z)
    (s : AIService) :
  context (update_contexts (calls ++ [(workspace, selection, now)]) s)
  = Some {| workspace_path := workspace;
            selected_files := default [] selection;
            last_command := carried last_command (context s);
            last_response := carried last_response (context s);
            timestamp := now |}.
Proof.
  revert s. induction calls as [|[[ws sel] t] calls IH]; intros s; simpl.
  - destruct selection as [[|f fs]|]; reflexivity.
  - rewrite IH. reflexivity.
Qed.

(** ** The life cycle *)

(** A service that is not initialised refuses every command: the call
    raises [RuntimeError] and leaves the service as it was, with no token
    taken, no request sent and no signal emitted.  That is the state of a
    service just made, of one whose connection test failed, and of one
    that was cleaned up. *)
Theorem uninitialised_service_refuses (command : string) (x : exchange)
    (s : AIService) :
  let refused s0 :=
    process_command command x s0
    = Some (Raise (Exn RuntimeError "AIService not initialized"), s0) in
  (forall key model now s0,
      Lifecycle.construct key model now = Ok s0 -> refused s0)
  /\ (forall e, _is_initialized s = false ->
                fst (Lifecycle.initialize (Raise e) s) = Raise e
                /\ refused (snd (Lifecycle.initialize (Raise e) s)))
  /\ refused (Lifecycle.cleanup s)
  /\ context (Lifecycle.cleanup s) = None.
Proof.
  intros refused. split; [|split; [|split]].
  - intros key model now s0. unfold Lifecycle.construct.
    destruct (truthy key); intros H; inversion H; subst. reflexivity.
  - intros e Hinit. unfold Lifecycle.initialize. rewrite Hinit. simpl.
    split; [reflexivity|]. unfold refused, process_command. simpl.
    rewrite Hinit. reflexivity.
  - reflexivity.
  - reflexivity.
Qed.

(** Once [initialize] has succeeded, calling it again returns at once:
    no connection test is sent and nothing changes, whatever the endpoint
    would answer. *)
Theorem initialize_once (reply : outcome unit) (s : AIService) :
  _is_initialized s = false ->
  let s1 := snd (Lifecycle.initialize (Ok tt) s) in
  fst (Lifecycle.initialize (Ok tt) s) = Ok tt
  /\ _is_initialized s1 = true
  /\ sent s1 = sent s ++ [Lifecycle.probe s]
  /\ Lifecycle.initialize reply s1 = (Ok tt, s1).
Proof.
  intros Hinit. unfold Lifecycle.initialize. rewrite Hinit. simpl.
  repeat split.
Qed.

(** ** The window's handlers *)

(** The two handlers of the main window call [update_context] without
    awaiting it, so the coroutine never runs: whatever paths and
    selections the user goes through, the AI service is exactly as it
    was, and if it had no context every prompt is the bare base
    instruction. *)
Theorem window_events_never_reach_context (evs : list Window.ui_event)
    (mw : Window.MainWindow) :
  Window.ai_service (Window.handle_events evs mw) = Window.ai_service mw
  /\ (context (Window.ai_service mw) = None ->
      _build_system_prompt (Window.ai_service (Window.handle_events evs mw))
      = base_instruction).
Proof.
  assert (H : Window.ai_service (Window.handle_events evs mw)
              = Window.ai_service mw).
  { revert mw. induction evs as [|ev evs IH]; intros mw; simpl; [reflexivity|].
    rewrite IH. destruct ev; reflexivity. }
  split; [exact H|]. intros Hc. rewrite H. unfold _build_system_prompt.
  rewrite Hc. reflexivity.
Qed.

(** ** The properties above on sample services *)

Lemma limiter_burst_witness :
  (50 <= 50)%nat
  /\ exists l,
       drain 50 (new_limiter (Z.of_nat 50) 0) = Some l
       /\ (tokens l == inject_Z (Z.of_nat 50) - inject_Z (Z.of_nat 50))%Q
       /\ last_update l = 0
       /\ (50%nat = 50%nat -> acquire [] l = None).
Proof.
  split; [lia|]. apply (limiter_burst 50 50 0). lia.
Defined.

Lemma acquire_returns_after_one_refill_witness :
  reachable Samples.drained
  /\ 0 < rate_limit Samples.drained
  /\ 60000000 < (1200001 - last_update Samples.drained) * rate_limit Samples.drained
  /\ (acquire [1200001] Samples.drained
      = Some (take_token Samples.drained, [1200001])
      \/ acquire [1200001] Samples.drained
         = Some (take_token (refill 1200001 Samples.drained), [])).
Proof.
  assert (Hr : reachable Samples.drained).
  { apply (drain_reachable 50 (new_limiter 50 0)); [constructor|].
    vm_compute; reflexivity. }
  split; [exact Hr|]. split; [vm_compute; reflexivity|].
  split; [vm_compute; reflexivity|].
  apply (acquire_returns_after_one_refill Samples.drained 1200001 []).
  - exact Hr.
  - vm_compute; reflexivity.
  - vm_compute; reflexivity.
Defined.

Lemma acquire_never_returns_without_rate_witness :
  0 <= 0 /\ acquire [5; 60000005] (new_limiter 0 0) = None.
Proof.
  split; [lia|]. apply (acquire_never_returns_without_rate 0 0). lia.
Defined.

Lemma process_command_spends_token_and_sends_witness :
  _is_initialized Samples.ai0 = true
  /\ acquire (readings Samples.timing_out) (rate_limiter Samples.ai0)
     = Some (take_token (rate_limiter Samples.ai0), [])
  /\ process_command "list files" Samples.timing_out Samples.ai0
     = Some (Raise (Exn ConnectionError "AI request timed out"),
             Samples.ai_timed_out)
  /\ rate_limiter Samples.ai_timed_out = take_token (rate_limiter Samples.ai0)
  /\ sent Samples.ai_timed_out
     = sent Samples.ai0 ++ [request_of "list files" Samples.ai0]
  /\ req_system (request_of "list files" Samples.ai0)
     = _build_system_prompt Samples.ai0
  /\ req_user (request_of "list files" Samples.ai0) = "list files"
  /\ model Samples.ai_timed_out = model Samples.ai0
  /\ _is_initialized Samples.ai_timed_out = true.
Proof.
  split; [reflexivity|]. split; [vm_compute; reflexivity|].
  split; [vm_compute; reflexivity|].
  apply (process_command_spends_token_and_sends "list files" Samples.timing_out
           Samples.ai0 Samples.ai_timed_out
           (take_token (rate_limiter Samples.ai0)) []
           (Raise (Exn ConnectionError "AI request timed out"))).
  - reflexivity.
  - vm_compute; reflexivity.
  - vm_compute; reflexivity.
Defined.

Lemma process_command_with_context_raises_witness :
  let x := Samples.streaming Scenarios.two_chunks in
  let s := Scenarios.ai_with_context in
  _is_initialized s = true
  /\ acquire (readings x) (rate_limiter s) = Some (take_token (rate_limiter s), [])
  /\ endpoint x (request_of "list files" s)
     = Ok {| chunks := Scenarios.two_chunks; failure := None |}
  /\ context s
     = Some {| workspace_path := Some Samples.home; selected_files := [];
               last_command := None; last_response := None; timestamp := 3 |}
  /\ exists s',
       process_command "list files" x s
       = Some (Raise (Exn AttributeError
                        "'AIContext' object has no attribute 'copy'"), s')
       /\ context s'
          = Some (record_exchange "list files"
                    (String.concat "" (chunk_text <$> Scenarios.two_chunks))
                    (context_time x)
                    {| workspace_path := Some Samples.home; selected_files := [];
                       last_command := None; last_response := None;
                       timestamp := 3 |})
       /\ emitted s'
          = emitted s ++ [response_started]
            ++ (response_chunk <$> spoken Scenarios.two_chunks)
            ++ [error_occurred
                  "Unexpected error in AI processing: 'AIContext' object has no attribute 'copy'"].
Proof.
  intros x s. split; [reflexivity|]. split; [vm_compute; reflexivity|].
  split; [reflexivity|]. split; [reflexivity|].
  apply (process_command_with_context_raises "list files" x s
           (take_token (rate_limiter s)) []
           {| chunks := Scenarios.two_chunks; failure := None |}).
  - reflexivity.
  - vm_compute; reflexivity.
  - reflexivity.
  - reflexivity.
  - reflexivity.
Defined.

Lemma process_command_remote_failure_keeps_context_witness :
  let e0 := Exn APITimeoutError "Request timed out." in
  _is_initialized Samples.ai0 = true
  /\ acquire (readings Samples.timing_out) (rate_limiter Samples.ai0)
     = Some (take_token (rate_limiter Samples.ai0), [])
  /\ (endpoint Samples.timing_out (request_of "list files" Samples.ai0) = Raise e0
      \/ (exists st,
            endpoint Samples.timing_out (request_of "list files" Samples.ai0)
            = Ok st /\ failure st = Some e0))
  /\ exists e s',
       process_command "list files" Samples.timing_out Samples.ai0
       = Some (Raise e, s')
       /\ context s' = context Samples.ai0.
Proof.
  intros e0.
  assert (Hcause :
    endpoint Samples.timing_out (request_of "list files" Samples.ai0) = Raise e0
    \/ (exists st,
          endpoint Samples.timing_out (request_of "list files" Samples.ai0)
          = Ok st /\ failure st = Some e0)).
  { right. eexists. split; reflexivity. }
  split; [reflexivity|]. split; [vm_compute; reflexivity|].
  split; [exact Hcause|].
  apply (process_command_remote_failure_keeps_context "list files"
           Samples.timing_out Samples.ai0
           (take_token (rate_limiter Samples.ai0)) [] e0).
  - reflexivity.
  - vm_compute; reflexivity.
  - exact Hcause.
Defined.

Lemma process_command_remote_failure_reported_witness :
  let e0 := Exn APITimeoutError "Request timed out." in
  _is_initialized Samples.ai0 = true
  /\ acquire (readings Samples.timing_out) (rate_limiter Samples.ai0)
     = Some (take_token (rate_limiter Samples.ai0), [])
  /\ (endpoint Samples.timing_out (request_of "list files" Samples.ai0) = Raise e0
      \/ (exists st,
            endpoint Samples.timing_out (request_of "list files" Samples.ai0)
            = Ok st /\ failure st = Some e0))
  /\ process_command "list files" Samples.timing_out Samples.ai0
     = Some (Raise (Exn ConnectionError "AI request timed out"),
             Samples.ai_timed_out)
  /\ exists e msg s',
       process_command "list files" Samples.timing_out Samples.ai0
       = Some (Raise e, s')
       /\ emitted s'
          = emitted Samples.ai0 ++ [response_started]
            ++ (response_chunk
                  <$> match endpoint Samples.timing_out
                              (request_of "list files" Samples.ai0) with
                      | Ok st => spoken (chunks st)
                      | Raise _ => []
                      end)
            ++ [error_occurred msg]
       /\ context s' = context Samples.ai0
       /\ match exn_cls e0 with
          | APITimeoutError =>
            e = Exn ConnectionError "AI request timed out"
            /\ msg = "AI request timed out"
          | RateLimitError =>
            e = e0 /\ msg = "AI rate limit exceeded"
          | APIConnectionError | APIStatusError =>
            e = Exn ConnectionError ("AI API error: " ++ exn_msg e0)
            /\ msg = ("AI API error: " ++ exn_msg e0)%string
          | _ =>
            e = e0
            /\ msg = ("Unexpected error in AI processing: " ++ exn_msg e0)%string
          end.
Proof.
  intros e0.
  assert (Hcause :
    endpoint Samples.timing_out (request_of "list files" Samples.ai0) = Raise e0
    \/ (exists st,
          endpoint Samples.timing_out (request_of "list files" Samples.ai0)
          = Ok st /\ failure st = Some e0)).
  { right. eexists. split; reflexivity. }
  split; [reflexivity|]. split; [vm_compute; reflexivity|].
  split; [exact Hcause|]. split; [vm_compute; reflexivity|].
  apply (process_command_remote_failure_reported "list files"
           Samples.timing_out Samples.ai0
           (take_token (rate_limiter Samples.ai0)) [] e0).
  - reflexivity.
  - vm_compute; reflexivity.
  - exact Hcause.
Defined.

Lemma initialize_once_witness :
  let s := new default_model 0 in
  let s1 := snd (Lifecycle.initialize (Ok tt) s) in
  _is_initialized s = false
  /\ fst (Lifecycle.initialize (Ok tt) s) = Ok tt
  /\ _is_initialized s1 = true
  /\ sent s1 = sent s ++ [Lifecycle.probe s]
  /\ Lifecycle.initialize (Raise (Exn APIConnectionError "Connection error.")) s1
     = (Ok tt, s1).
Proof.
  intros s s1. split; [reflexivity|].
  apply (initialize_once (Raise (Exn APIConnectionError "Connection error.")) s).
  reflexivity.
Defined.
End AIFacts.
